(** * video-to-learning: the content-generation pipeline

    A shallow embedding of
      - [src/lib/textGeneration.ts]  ([generateText], and the [parseJSON] /
        [parseHTML] helpers of [lib/parse]),
      - [src/video-to-learning-app/components/ContentContainer.tsx]
        (the two-stage run, the spec-save regeneration, the loading states),
      - [src/video-to-learning-app/App.tsx] (the run counter used as the
        [key] of [ContentContainer]),
    followed by the properties of the specification that concern them.

    JavaScript strings are sequences of UTF-16 code units; they are modelled
    as [list N].  Indices are [Z], as [indexOf] / [lastIndexOf] answer [-1]. *)

From Stdlib Require Import String Ascii ZArith NArith QArith Bool List Lia.
Import ListNotations.
Local Open Scope Z_scope.
Set Warnings "-register-all".

(* ================================================================== *)
(** ** JavaScript strings *)
(* ================================================================== *)

Definition jsstring := list N.

(** A string literal of the source, as code units. *)
Definition js (s : string) : jsstring :=
  map N_of_ascii (list_ascii_of_string s).

Fixpoint jsstring_eqb (a b : jsstring) : bool :=
  match a, b with
  | [], [] => true
  | x :: a', y :: b' => N.eqb x y && jsstring_eqb a' b'
  | _, _ => false
  end.

(** JavaScript truthiness of a string: every string but the empty one. *)
Definition truthy (s : jsstring) : bool :=
  match s with [] => false | _ :: _ => true end.

(** Truthiness of an optional ([undefined]-able) string. *)
Definition truthy_opt (o : option jsstring) : bool :=
  match o with None => false | Some s => truthy s end.

(** [x || ''] on an optional string. *)
Definition or_empty (o : option jsstring) : jsstring :=
  match o with
  | None => []
  | Some s => s
  end.

(** [starts_with pat s]: [pat] occurs in [s] at index 0. *)
Fixpoint starts_with (pat s : jsstring) : bool :=
  match pat, s with
  | [], _ => true
  | _ :: _, [] => false
  | p :: pat', c :: s' => N.eqb p c && starts_with pat' s'
  end.

(** [index_from pat s k]: the index of the first occurrence of [pat] in
    [s], where the head of [s] has index [k]; [-1] when there is none. *)
Fixpoint index_from (pat s : jsstring) (k : Z) : Z :=
  if starts_with pat s then k
  else match s with
       | [] => -1
       | _ :: s' => index_from pat s' (k + 1)
       end.

(** [String.prototype.indexOf] with one argument. *)
Definition indexOf (s pat : jsstring) : Z := index_from pat s 0.

(** [last_index_from pat s k]: the index of the last occurrence of [pat]
    in [s], where the head of [s] has index [k]; [-1] when there is none. *)
Fixpoint last_index_from (pat s : jsstring) (k : Z) : Z :=
  match s with
  | [] => if starts_with pat [] then k else -1
  | _ :: s' =>
      let r := last_index_from pat s' (k + 1) in
      if 0 <=? r then r
      else if starts_with pat s then k else -1
  end.

(** [String.prototype.lastIndexOf] with one argument. *)
Definition lastIndexOf (s pat : jsstring) : Z := last_index_from pat s 0.

(** The clamping of [String.prototype.substring]: an index below 0 counts
    as 0, one above the length as the length. *)
Definition clamp (len x : Z) : Z := Z.min (Z.max x 0) len.

(** The code units of [s] at the indices [from <= i < to]. *)
Definition slice (s : jsstring) (from to : Z) : jsstring :=
  firstn (Z.to_nat (to - from)) (skipn (Z.to_nat from) s).

(** [String.prototype.substring(start, end)]: both indices are clamped to
    [0 .. length], and swapped when [start > end]. *)
Definition substring (s : jsstring) (start end_ : Z) : jsstring :=
  let len := Z.of_nat (List.length s) in
  let a := clamp len start in
  let b := clamp len end_ in
  slice s (Z.min a b) (Z.max a b).

(** WhiteSpace and LineTerminator code points of ECMAScript, the ones
    [String.prototype.trim] strips. *)
Definition is_white_space (c : N) : bool :=
  ((9 <=? c) && (c <=? 13) || (c =? 32) || (c =? 160) || (c =? 5760)
   || (8192 <=? c) && (c <=? 8202) || (c =? 8232) || (c =? 8233)
   || (c =? 8239) || (c =? 8287) || (c =? 12288) || (c =? 65279))%N.

Fixpoint trim_start (s : jsstring) : jsstring :=
  match s with
  | [] => []
  | c :: s' => if is_white_space c then trim_start s' else s
  end.

Definition trim_end (s : jsstring) : jsstring :=
  rev (trim_start (rev s)).

(** [String.prototype.trim]. *)
Definition trim (s : jsstring) : jsstring := trim_end (trim_start s).

(** [pat] occurs in [s] right after [pre]. *)
Definition occurs_after (pat s pre : jsstring) : Prop :=
  exists post, s = pre ++ pat ++ post.

(** The literal marker of [parseHTML]. *)
Definition DOCTYPE : jsstring := js "<!DOCTYPE html>".

Definition LBRACE : jsstring := js "{".
Definition RBRACE : jsstring := js "}".

(* ================================================================== *)
(** ** JSON.parse *)
(* ================================================================== *)

(** The values [JSON.parse] builds.  A number keeps the text of its
    literal; an object keeps its members in source order. *)
Inductive json : Type :=
  | JNull
  | JBool (b : bool)
  | JNumber (literal : jsstring)
  | JString (s : jsstring)
  | JArray (elements : list json)
  | JObject (members : list (jsstring * json)).

(** JSON white space: tab, line feed, carriage return, space. *)
Definition is_json_ws (c : N) : bool :=
  ((c =? 9) || (c =? 10) || (c =? 13) || (c =? 32))%N.

Fixpoint skip_ws (s : jsstring) : jsstring :=
  match s with
  | [] => []
  | c :: s' => if is_json_ws c then skip_ws s' else s
  end.

Definition is_digit (c : N) : bool := ((48 <=? c) && (c <=? 57))%N.

(** The value of a hexadecimal digit. *)
Definition hex_value (c : N) : option N :=
  if is_digit c then Some (c - 48)%N
  else if ((65 <=? c) && (c <=? 70))%N then Some (c - 55)%N
  else if ((97 <=? c) && (c <=? 102))%N then Some (c - 87)%N
  else None.

(** The code unit an escape letter stands for. *)
Definition escape_char (c : N) : option N :=
  if (c =? 34)%N then Some 34%N           (* quote *)
  else if (c =? 92)%N then Some 92%N      (* backslash *)
  else if (c =? 47)%N then Some 47%N      (* slash *)
  else if (c =? 98)%N then Some 8%N       (* b: backspace *)
  else if (c =? 102)%N then Some 12%N     (* f: form feed *)
  else if (c =? 110)%N then Some 10%N     (* n: line feed *)
  else if (c =? 114)%N then Some 13%N     (* r: carriage return *)
  else if (c =? 116)%N then Some 9%N      (* t: tab *)
  else None.

(** The characters of a string literal after its opening quote, up to and
    including the closing quote; [acc] holds the decoded code units read so
    far, in reverse. *)
Fixpoint parse_string_body (s acc : jsstring) : option (jsstring * jsstring) :=
  match s with
  | [] => None
  | c :: t =>
      if (c =? 34)%N then Some (rev acc, t)
      else if (c <? 32)%N then None
      else if (c =? 92)%N then
        match t with
        | [] => None
        | e :: t1 =>
            if (e =? 117)%N then
              match t1 with
              | h1 :: h2 :: h3 :: h4 :: t2 =>
                  match hex_value h1, hex_value h2, hex_value h3, hex_value h4 with
                  | Some a, Some b, Some c', Some d =>
                      parse_string_body t2
                        ((((a * 16 + b) * 16 + c') * 16 + d)%N :: acc)
                  | _, _, _, _ => None
                  end
              | _ => None
              end
            else
              match escape_char e with
              | Some x => parse_string_body t1 (x :: acc)
              | None => None
              end
        end
      else parse_string_body t (c :: acc)
  end.

(** The longest prefix of digits, and what follows it. *)
Fixpoint take_digits (s : jsstring) : jsstring * jsstring :=
  match s with
  | [] => ([], [])
  | c :: t =>
      if is_digit c then let (d, r) := take_digits t in (c :: d, r)
      else ([], s)
  end.

(** The integer part of a number: [0], or a non-zero digit and digits. *)
Definition parse_int_part (s : jsstring) : option (jsstring * jsstring) :=
  match s with
  | [] => None
  | c :: t =>
      if (c =? 48)%N then Some ([c], t)
      else if is_digit c then let (d, r) := take_digits t in Some (c :: d, r)
      else None
  end.

(** An optional fraction: a dot and at least one digit. *)
Definition parse_frac_part (s : jsstring) : option (jsstring * jsstring) :=
  match s with
  | c :: t =>
      if (c =? 46)%N then
        match take_digits t with
        | ([], _) => None
        | (d, r) => Some (c :: d, r)
        end
      else Some ([], s)
  | [] => Some ([], s)
  end.

(** An optional exponent: [e] or [E], an optional sign, at least one digit. *)
Definition parse_exp_part (s : jsstring) : option (jsstring * jsstring) :=
  match s with
  | c :: t =>
      if ((c =? 101) || (c =? 69))%N then
        let '(sign, t') :=
          match t with
          | x :: u => if ((x =? 43) || (x =? 45))%N then ([x], u) else ([], t)
          | [] => ([], t)
          end in
        match take_digits t' with
        | ([], _) => None
        | (d, r) => Some (c :: sign ++ d, r)
        end
      else Some ([], s)
  | [] => Some ([], s)
  end.

(** A number literal: its text and what follows it. *)
Definition parse_number (s : jsstring) : option (jsstring * jsstring) :=
  let '(sign, s1) :=
    match s with
    | c :: t => if (c =? 45)%N then ([c], t) else ([], s)
    | [] => ([], s)
    end in
  match parse_int_part s1 with
  | None => None
  | Some (i, s2) =>
      match parse_frac_part s2 with
      | None => None
      | Some (f, s3) =>
          match parse_exp_part s3 with
          | None => None
          | Some (e, s4) => Some (sign ++ i ++ f ++ e, s4)
          end
      end
  end.

(** The three literal names. *)
Definition parse_literal (s : jsstring) : option (json * jsstring) :=
  if starts_with (js "null") s then Some (JNull, skipn 4 s)
  else if starts_with (js "true") s then Some (JBool true, skipn 4 s)
  else if starts_with (js "false") s then Some (JBool false, skipn 5 s)
  else None.

(** One JSON value at the head of [s] (after optional white space), and
    what follows it.  [fuel] bounds the number of nested calls; a value of
    [n] code units needs at most [2 * n + 2]. *)
Fixpoint parse_value (fuel : nat) (s : jsstring) {struct fuel}
  : option (json * jsstring) :=
  match fuel with
  | O => None
  | S n =>
      match skip_ws s with
      | [] => None
      | c :: t =>
          if (c =? 123)%N then
            match skip_ws t with
            | [] => None
            | c' :: r =>
                if (c' =? 125)%N then Some (JObject [], r)
                else parse_members n (c' :: r) []
            end
          else if (c =? 91)%N then
            match skip_ws t with
            | [] => None
            | c' :: r =>
                if (c' =? 93)%N then Some (JArray [], r)
                else parse_elements n (c' :: r) []
            end
          else if (c =? 34)%N then
            match parse_string_body t [] with
            | Some (str, r) => Some (JString str, r)
            | None => None
            end
          else if (c =? 45)%N || is_digit c then
            match parse_number (c :: t) with
            | Some (lit, r) => Some (JNumber lit, r)
            | None => None
            end
          else parse_literal (c :: t)
      end
  end

(** The elements of an array after its bracket, up to and including the
    closing bracket. *)
with parse_elements (fuel : nat) (s : jsstring) (acc : list json) {struct fuel}
  : option (json * jsstring) :=
  match fuel with
  | O => None
  | S n =>
      match parse_value n s with
      | None => None
      | Some (v, r) =>
          match skip_ws r with
          | [] => None
          | c :: r' =>
              if (c =? 44)%N then parse_elements n r' (v :: acc)
              else if (c =? 93)%N then Some (JArray (rev (v :: acc)), r')
              else None
          end
      end
  end

(** The members of an object after its brace, up to and including the
    closing brace. *)
with parse_members (fuel : nat) (s : jsstring) (acc : list (jsstring * json))
  {struct fuel} : option (json * jsstring) :=
  match fuel with
  | O => None
  | S n =>
      match skip_ws s with
      | [] => None
      | q :: t =>
          if (q =? 34)%N then
            match parse_string_body t [] with
            | None => None
            | Some (key, r) =>
                match skip_ws r with
                | [] => None
                | colon :: r1 =>
                    if (colon =? 58)%N then
                      match parse_value n r1 with
                      | None => None
                      | Some (v, r2) =>
                          match skip_ws r2 with
                          | [] => None
                          | c :: r3 =>
                              if (c =? 44)%N then
                                parse_members n r3 ((key, v) :: acc)
                              else if (c =? 125)%N then
                                Some (JObject (rev ((key, v) :: acc)), r3)
                              else None
                          end
                      end
                    else None
                end
            end
          else None
      end
  end.

(** A whole text as one JSON value with [fuel] nested calls at most:
    [None] stands for the [SyntaxError] of [JSON.parse]. *)
Definition JSON_parse_fuel (fuel : nat) (s : jsstring) : option json :=
  match parse_value fuel s with
  | Some (v, r) => match skip_ws r with [] => Some v | _ :: _ => None end
  | None => None
  end.

(** [JSON.parse(s)] (without reviver). *)
Definition JSON_parse (s : jsstring) : option json :=
  JSON_parse_fuel (2 * length s + 2) s.

(* ================================================================== *)
(** ** Thrown values *)
(* ================================================================== *)

(** What a [throw] or a rejected promise carries. *)
Inductive exn : Type :=
  | JsError (message : jsstring)     (* [new Error(message)] *)
  | JsSyntaxError (text : jsstring)  (* thrown by [JSON.parse] on [text] *)
  | JsTypeError                      (* a property read on [null] *)
  | NonError.                        (* a thrown value that is no [Error] *)

(** A value, or a thrown one. *)
Definition Result (A : Type) : Type := (A + exn)%type.

(* ================================================================== *)
(** ** lib/parse *)
(* ================================================================== *)

Definition parseJSON (str : jsstring) : Result json :=
  let start := indexOf str LBRACE in
  let end_ := lastIndexOf str RBRACE + 1 in
  match JSON_parse (substring str start end_) with
  | Some v => inl v
  | None => inr (JsSyntaxError (substring str start end_))
  end.

Definition parseHTML (str opener closer : jsstring) : jsstring :=
  let start := indexOf str DOCTYPE in
  let end_ := lastIndexOf str closer in
  substring str start end_.

(* ================================================================== *)
(** ** The backend: requests and responses of [ai.models.generateContent] *)
(* ================================================================== *)

Inductive Part : Type :=
  | TextPart (text : jsstring)
  | FileDataPart (mimeType fileUri : jsstring).

Record Content : Type := mkContent {
  role : jsstring;
  parts : list Part
}.

Record GenerateContentParameters : Type := mkRequest {
  model : jsstring;
  contents : list Content;
  config_temperature : Q
}.

Record PromptFeedback : Type := mkPromptFeedback {
  blockReason : option jsstring
}.

Record Candidate : Type := mkCandidate {
  finishReason : option jsstring
}.

Record GenerateContentResponse : Type := mkResponse {
  promptFeedback : option PromptFeedback;
  candidates : option (list Candidate);
  text : jsstring
}.

(** How a backend call settles. *)
Inductive BackendOutcome : Type :=
  | Fulfilled (response : GenerateContentResponse)
  | Rejected (e : exn).

(** [FinishReason.STOP] and [FinishReason.SAFETY] of the client library. *)
Definition FinishReason_STOP : jsstring := js "STOP".
Definition FinishReason_SAFETY : jsstring := js "SAFETY".

(** [response.promptFeedback?.blockReason] *)
Definition prompt_block_reason (response : GenerateContentResponse)
  : option jsstring :=
  match promptFeedback response with
  | None => None
  | Some pf => blockReason pf
  end.

Record GenerateTextOptions : Type := mkOptions {
  modelName : jsstring;
  prompt : jsstring;
  videoUrl : option jsstring;
  temperature : option Q
}.

(* ================================================================== *)
(** ** The state of one [ContentContainer] *)
(* ================================================================== *)

Inductive LoadingState : Type :=
  | loading_spec
  | loading_code
  | ready
  | error_state.

(** The [useState] cells of the component.  [iframeKey], which only
    re-keys the rendering surface, is left out. *)
Record ContainerState : Type := mkState {
  spec : jsstring;
  code : jsstring;
  saveMessage : jsstring;
  loadingState : LoadingState;
  error : option jsstring;
  isEditingSpec : bool;
  editedSpec : jsstring;
  activeTabIndex : Z
}.

Definition setSpec (x : jsstring) (s : ContainerState) : ContainerState :=
  mkState x (code s) (saveMessage s) (loadingState s) (error s)
          (isEditingSpec s) (editedSpec s) (activeTabIndex s).

Definition setCode (x : jsstring) (s : ContainerState) : ContainerState :=
  mkState (spec s) x (saveMessage s) (loadingState s) (error s)
          (isEditingSpec s) (editedSpec s) (activeTabIndex s).

Definition setSaveMessage (x : jsstring) (s : ContainerState) : ContainerState :=
  mkState (spec s) (code s) x (loadingState s) (error s)
          (isEditingSpec s) (editedSpec s) (activeTabIndex s).

Definition setLoadingState (x : LoadingState) (s : ContainerState)
  : ContainerState :=
  mkState (spec s) (code s) (saveMessage s) x (error s)
          (isEditingSpec s) (editedSpec s) (activeTabIndex s).

Definition setError (x : option jsstring) (s : ContainerState)
  : ContainerState :=
  mkState (spec s) (code s) (saveMessage s) (loadingState s) x
          (isEditingSpec s) (editedSpec s) (activeTabIndex s).

Definition setIsEditingSpec (x : bool) (s : ContainerState) : ContainerState :=
  mkState (spec s) (code s) (saveMessage s) (loadingState s) (error s)
          x (editedSpec s) (activeTabIndex s).

Definition setEditedSpec (x : jsstring) (s : ContainerState) : ContainerState :=
  mkState (spec s) (code s) (saveMessage s) (loadingState s) (error s)
          (isEditingSpec s) x (activeTabIndex s).

Definition setActiveTabIndex (x : Z) (s : ContainerState) : ContainerState :=
  mkState (spec s) (code s) (saveMessage s) (loadingState s) (error s)
          (isEditingSpec s) (editedSpec s) x.

Record ContentContainerProps : Type := mkProps {
  contentBasis : jsstring;
  preSeededSpec : option jsstring;
  preSeededCode : option jsstring
}.

(** The state a freshly mounted component starts from. *)
Definition initial_state (props : ContentContainerProps) : ContainerState :=
  {| spec := or_empty (preSeededSpec props);
     code := or_empty (preSeededCode props);
     saveMessage := [];
     loadingState :=
       if truthy_opt (preSeededSpec props) && truthy_opt (preSeededCode props)
       then ready else loading_spec;
     error := None;
     isEditingSpec := false;
     editedSpec := [];
     activeTabIndex := 0 |}.

(* ================================================================== *)
(** ** Asynchronous functions of the component *)
(* ================================================================== *)

(** An [async] function body: it returns or throws, calls a state setter
    and goes on, or awaits the backend and goes on with the outcome. *)
Inductive M (A : Type) : Type :=
  | Ret (a : A)
  | Throw (e : exn)
  | Update (u : ContainerState -> ContainerState) (k : M A)
  | Await (req : GenerateContentParameters) (k : BackendOutcome -> M A).

Arguments Ret {A} a.
Arguments Throw {A} e.
Arguments Update {A} u k.
Arguments Await {A} req k.

Fixpoint bind {A B : Type} (m : M A) (f : A -> M B) : M B :=
  match m with
  | Ret a => f a
  | Throw e => Throw e
  | Update u k => Update u (bind k f)
  | Await req k => Await req (fun o => bind (k o) f)
  end.

(** [try { m } catch (err) { h err }] *)
Fixpoint try_catch {A : Type} (m : M A) (h : exn -> M A) : M A :=
  match m with
  | Ret a => Ret a
  | Throw e => h e
  | Update u k => Update u (try_catch k h)
  | Await req k => Await req (fun o => try_catch (k o) h)
  end.

(** A statement that calls a setter. *)
Definition call (u : ContainerState -> ContainerState) : M unit :=
  Update u (Ret tt).

Declare Scope async_scope.
Delimit Scope async_scope with async.
Notation "x <- m ;; k" := (bind m (fun x => k))
  (at level 61, m at next level, right associativity) : async_scope.
Notation "m ;; k" := (bind m (fun _ => k))
  (at level 61, right associativity) : async_scope.
Local Open Scope async_scope.

(** Where an execution stands once it cannot go on by itself. *)
Inductive Suspended (A : Type) : Type :=
  | Finished (r : Result A)
  | Waiting (req : GenerateContentParameters) (k : BackendOutcome -> M A).

Arguments Finished {A} r.
Arguments Waiting {A} req k.

(** Run up to the next [await] (or to the end), applying the setters. *)
Fixpoint run_sync {A : Type} (m : M A) (s : ContainerState)
  : ContainerState * Suspended A :=
  match m with
  | Ret a => (s, Finished (inl a))
  | Throw e => (s, Finished (inr e))
  | Update u k => run_sync k (u s)
  | Await req k => (s, Waiting req k)
  end.

(** Run with the outcomes of the successive backend calls.  The answer
    lists, for each call issued, the state at that [await] and the request,
    then the last state and where the execution stands. *)
Fixpoint run {A : Type} (m : M A) (s : ContainerState)
  (outcomes : list BackendOutcome) {struct outcomes}
  : list (ContainerState * GenerateContentParameters)
    * (ContainerState * Suspended A) :=
  match run_sync m s with
  | (s', Finished r) => ([], (s', Finished r))
  | (s', Waiting req k) =>
      match outcomes with
      | [] => ([(s', req)], (s', Waiting req k))
      | o :: outcomes' =>
          let '(calls, final) := run (k o) s' outcomes' in
          ((s', req) :: calls, final)
      end
  end.

(* ================================================================== *)
(** ** App.tsx: the session state *)
(* ================================================================== *)

Module Example.
(** A record of [data/examples.json]. *)
Record t : Type := mk {
  title : jsstring;
  url : jsstring;
  spec : jsstring;
  code : jsstring
}.
End Example.

Module App.

(** Whether to validate the input URL before attempting to generate
    content *)
Definition VALIDATE_INPUT_URL : bool := true.

(** The [useState] cells of [App]. *)
Record State : Type := mk {
  videoUrl : jsstring;
  urlValidating : bool;
  contentLoading : bool;
  reloadCounter : Z;
  selectedExample : option Example.t
}.

(** [PRESEED_CONTENT] is [false]: no video, no selected example. *)
Definition initial : State :=
  {| videoUrl := [];
     urlValidating := false;
     contentLoading := false;
     reloadCounter := 0;
     selectedExample := None |}.

Definition handleExampleSelect (example : Example.t) (a : State) : State :=
  {| videoUrl := Example.url example;
     urlValidating := urlValidating a;
     contentLoading := contentLoading a;
     reloadCounter := reloadCounter a + 1;
     selectedExample := Some example |}.

(** Helper function to handle common operations after URL validation:
    incrementing the counter changes the [key] prop on
    [ContentContainer], forcing it to re-mount and re-generate content. *)
Definition proceedWithVideo (url : jsstring) (a : State) : State :=
  {| videoUrl := url;
     urlValidating := false;
     contentLoading := contentLoading a;
     reloadCounter := reloadCounter a + 1;
     selectedExample := selectedExample a |}.

(** [handleSubmit] up to its [await]: [raw] is the text of the input
    field, [isPreSeededExample] whether it is the URL of an example. *)
Definition handleSubmit (raw : jsstring) (isPreSeededExample : bool)
  (a : State) : State :=
  let inputValue := trim raw in
  if negb (truthy inputValue) then a
  else if urlValidating a then a
  else
    let a' :=
      {| videoUrl := [];
         urlValidating := true;
         contentLoading := false;
         reloadCounter := reloadCounter a;
         selectedExample := None |} in
    if isPreSeededExample then proceedWithVideo inputValue a'
    else if VALIDATE_INPUT_URL then a'
    else proceedWithVideo inputValue a'.

(** [handleSubmit] after [validateYoutubeUrl] has answered. *)
Definition handleSubmit_validated (inputValue : jsstring) (isValid : bool)
  (a : State) : State :=
  if isValid then proceedWithVideo inputValue a
  else
    {| videoUrl := videoUrl a;
       urlValidating := false;
       contentLoading := contentLoading a;
       reloadCounter := reloadCounter a;
       selectedExample := selectedExample a |}.

(** [onChange] of the input field: clear all content. *)
Definition handleInputChange (a : State) : State :=
  {| videoUrl := [];
     urlValidating := urlValidating a;
     contentLoading := contentLoading a;
     reloadCounter := reloadCounter a;
     selectedExample := None |}.

Definition handleContentLoadingStateChange (isLoading : bool) (a : State)
  : State :=
  {| videoUrl := videoUrl a;
     urlValidating := urlValidating a;
     contentLoading := isLoading;
     reloadCounter := reloadCounter a;
     selectedExample := selectedExample a |}.

(** The props [App] renders [ContentContainer] with. *)
Definition container_props (a : State) : ContentContainerProps :=
  {| contentBasis := videoUrl a;
     preSeededSpec := option_map Example.spec (selectedExample a);
     preSeededCode := option_map Example.code (selectedExample a) |}.

(** [[defaultExample, ...examples].some((example) => example.url ===
    inputValue)]: the entries are visited in order until one matches; an
    [undefined] entry throws when its [url] is read. *)
Fixpoint some_url_matches (entries : list (option Example.t))
  (inputValue : jsstring) : Result bool :=
  match entries with
  | [] => inl false
  | None :: _ => inr JsTypeError
  | Some example :: rest =>
      if jsstring_eqb (Example.url example) inputValue then inl true
      else some_url_matches rest inputValue
  end.

(** Check if the URL matches any of our examples *)
Definition isPreSeededExample (defaultExample : option Example.t)
  (examples : list Example.t) (inputValue : jsstring) : Result bool :=
  some_url_matches (defaultExample :: map Some examples) inputValue.

(** [handleSubmit] up to its [await], with the examples of the context:
    the state it leaves, and whether it threw. *)
Definition handleSubmit_in (defaultExample : option Example.t)
  (examples : list Example.t) (raw : jsstring) (a : State)
  : State * Result unit :=
  let inputValue := trim raw in
  if negb (truthy inputValue) then (a, inl tt)
  else if urlValidating a then (a, inl tt)
  else
    match isPreSeededExample defaultExample examples inputValue with
    | inr e =>
        ({| videoUrl := [];
            urlValidating := true;
            contentLoading := false;
            reloadCounter := reloadCounter a;
            selectedExample := None |}, inr e)
    | inl found => (handleSubmit raw found a, inl tt)
    end.

(** Handle 'Enter' key press in the input field *)
Definition handleKeyDown (key raw : jsstring) (isPreSeeded : bool) (a : State)
  : State :=
  if jsstring_eqb key (js "Enter") && negb (urlValidating a)
     && negb (contentLoading a)
  then handleSubmit raw isPreSeeded a
  else a.

End App.

(* ================================================================== *)
(** ** index.tsx: the data context *)
(* ================================================================== *)

Module DataProvider.

(** [examples ? examples[0] : empty]: an array is truthy even when empty,
    so the default example is the first example, and [undefined] while
    there is none. *)
Definition defaultExample (examples : list Example.t) : option Example.t :=
  match examples with
  | [] => None
  | first :: _ => Some first
  end.

End DataProvider.

(* ================================================================== *)
(** ** lib/textGeneration and the component's functions *)
(* ================================================================== *)

Section Pipeline.

Set Default Proof Using "Type".

(** The credential read from the environment when the module loads. *)
Variable GEMINI_API_KEY : option jsstring.

(** The constants of [lib/prompts]. *)
Variable SPEC_FROM_VIDEO_PROMPT : jsstring.
Variable SPEC_ADDENDUM : jsstring.
Variable CODE_REGION_OPENER : jsstring.
Variable CODE_REGION_CLOSER : jsstring.

(** What the JavaScript engine decides: the messages of its own errors,
    and the string a number, an array or an object turns into under [+]
    (which may throw). *)
Variable syntax_error_message : jsstring -> jsstring.
Variable type_error_message : jsstring.
Variable to_primitive_string : json -> Result jsstring.

(** The statements of [generateText] that follow its [await]: the
    checks on what the backend call settled with. *)
Definition check_response (outcome : BackendOutcome) : M jsstring :=
  match outcome with
  | Rejected e => Throw e
  | Fulfilled response =>
      (* Check for prompt blockage *)
      if truthy_opt (prompt_block_reason response) then
        Throw (JsError
          (js "Content generation failed: Prompt blocked (reason: "
           ++ or_empty (prompt_block_reason response) ++ js ")"))
      else
        (* Check for response blockage *)
        match candidates response with
        | None | Some [] =>
            Throw (JsError
              (js "Content generation failed: No candidates returned."))
        | Some (firstCandidate :: _) =>
            (* Check for finish reasons other than STOP *)
            if truthy_opt (finishReason firstCandidate)
               && negb (jsstring_eqb (or_empty (finishReason firstCandidate))
                                     FinishReason_STOP)
            then
              if jsstring_eqb (or_empty (finishReason firstCandidate))
                              FinishReason_SAFETY
              then
                Throw (JsError (js
 "Content generation failed: Response blocked due to safety settings."))
              else
                Throw (JsError
                  (js "Content generation failed: Stopped due to "
                   ++ or_empty (finishReason firstCandidate) ++ js "."))
            else Ret (text response)
        end
  end.

(** The request [generateText] builds from its options. *)
Definition build_request (options : GenerateTextOptions)
  : GenerateContentParameters :=
  let temperature :=
    match temperature options with
    | Some t => t
    | None => (75 # 100)%Q
    end in
  let parts :=
    [TextPart (prompt options)]
    ++ (if truthy_opt (videoUrl options)
        then [FileDataPart (js "video/mp4") (or_empty (videoUrl options))]
        else []) in
  {| model := modelName options;
     contents := [ {| role := js "user"; parts := parts |} ];
     config_temperature := temperature |}.

Definition generateText (options : GenerateTextOptions) : M jsstring :=
  if negb (truthy_opt GEMINI_API_KEY) then
    Throw (JsError (js "Gemini API key is missing or empty"))
  else
    Await (build_request options) check_response.

(** The last member named [key] of an object: the one a property read
    finds after [JSON.parse]. *)
Fixpoint lookup_member (key : jsstring) (members : list (jsstring * json))
  : option json :=
  match members with
  | [] => None
  | (k, v) :: rest =>
      match lookup_member key rest with
      | Some v' => Some v'
      | None => if jsstring_eqb k key then Some v else None
      end
  end.

(** [v.spec] on a parsed value: [inl None] is [undefined]. *)
Definition read_spec (v : json) : Result (option json) :=
  match v with
  | JNull => inr JsTypeError
  | JObject members => inl (lookup_member (js "spec") members)
  | _ => inl None
  end.

(** [x + suffix] with a string on the right. *)
Definition plus_string (x : option json) (suffix : jsstring)
  : Result jsstring :=
  match x with
  | None => inl (js "undefined" ++ suffix)
  | Some (JString s) => inl (s ++ suffix)
  | Some JNull => inl (js "null" ++ suffix)
  | Some (JBool true) => inl (js "true" ++ suffix)
  | Some (JBool false) => inl (js "false" ++ suffix)
  | Some v =>
      match to_primitive_string v with
      | inl s => inl (s ++ suffix)
      | inr e => inr e
      end
  end.

Definition lift {A : Type} (r : Result A) : M A :=
  match r with
  | inl a => Ret a
  | inr e => Throw e
  end.

(** Helper function to generate content spec from video *)
Definition generateSpecFromVideo (videoUrl : jsstring) : M jsstring :=
  specResponse <- generateText
    {| modelName := js "gemini-2.0-flash";
       prompt := SPEC_FROM_VIDEO_PROMPT;
       videoUrl := Some videoUrl;
       temperature := None |} ;;
  parsed <- lift (parseJSON specResponse) ;;
  spec0 <- lift (read_spec parsed) ;;
  spec1 <- lift (plus_string spec0 SPEC_ADDENDUM) ;;
  Ret spec1.

(** Helper function to generate code from content spec *)
Definition generateCodeFromSpec (spec : jsstring) : M jsstring :=
  codeResponse <- generateText
    {| modelName := js "gemini-2.5-pro-preview-03-25";
       prompt := spec;
       videoUrl := None;
       temperature := None |} ;;
  Ret (parseHTML codeResponse CODE_REGION_OPENER CODE_REGION_CLOSER).

(** [err instanceof Error ? err.message : 'An unknown error occurred'] *)
Definition error_message (err : exn) : jsstring :=
  match err with
  | JsError m => m
  | JsSyntaxError t => syntax_error_message t
  | JsTypeError => type_error_message
  | NonError => js "An unknown error occurred"
  end.

(** The effect run on mount. *)
Definition generateContent (props : ContentContainerProps) : M unit :=
  (* If we have pre-seeded content, skip generation *)
  if truthy_opt (preSeededSpec props) && truthy_opt (preSeededCode props)
  then
    call (setSpec (or_empty (preSeededSpec props))) ;;
    call (setCode (or_empty (preSeededCode props))) ;;
    call (setLoadingState ready) ;;
    Ret tt
  else
    try_catch
      ((* Reset states *)
       call (setLoadingState loading_spec) ;;
       call (setError None) ;;
       call (setSpec []) ;;
       call (setCode []) ;;
       (* Generate a content spec based on video content *)
       generatedSpec <- generateSpecFromVideo (contentBasis props) ;;
       call (setSpec generatedSpec) ;;
       call (setLoadingState loading_code) ;;
       (* Generate code using the generated content spec *)
       generatedCode <- generateCodeFromSpec generatedSpec ;;
       call (setCode generatedCode) ;;
       call (setLoadingState ready) ;;
       Ret tt)
      (fun err =>
         call (setError (Some (error_message err))) ;;
         call (setLoadingState error_state) ;;
         Ret tt).

Definition handleCodeChange (value : option jsstring) : M unit :=
  call (setCode (or_empty value)) ;;
  call (setSaveMessage
          (js "HTML updated. Changes will appear in the Render tab.")) ;;
  Ret tt.

(** [cur] is the state of the render whose handler runs. *)
Definition handleSpecEdit (cur : ContainerState) : M unit :=
  call (setEditedSpec (spec cur)) ;;
  call (setIsEditingSpec true) ;;
  Ret tt.

Definition handleSpecSave (cur : ContainerState) : M unit :=
  let trimmedEditedSpec := trim (editedSpec cur) in
  (* Only regenerate if the spec has actually changed *)
  if jsstring_eqb trimmedEditedSpec (spec cur) then
    call (setIsEditingSpec false) ;;
    call (setEditedSpec []) ;;
    Ret tt
  else
    try_catch
      (call (setLoadingState loading_code) ;;
       call (setError None) ;;
       call (setSpec trimmedEditedSpec) ;;
       call (setIsEditingSpec false) ;;
       call (setActiveTabIndex 1) ;;
       (* Generate code using the edited content spec *)
       generatedCode <- generateCodeFromSpec trimmedEditedSpec ;;
       call (setCode generatedCode) ;;
       call (setLoadingState ready) ;;
       Ret tt)
      (fun err =>
         call (setError (Some (error_message err))) ;;
         call (setLoadingState error_state) ;;
         Ret tt).

Definition handleSpecCancel : M unit :=
  call (setIsEditingSpec false) ;;
  call (setEditedSpec []) ;;
  Ret tt.


(* ---------------------------------------------------------------- *)
(** *** The session: [App] with the component it renders *)
(* ---------------------------------------------------------------- *)

(** A mounted [ContentContainer].  [iid] tells component instances
    apart: a new one is made at every mount. *)
Record Instance : Type := mkInstance {
  iid : nat;
  key : Z;
  props : ContentContainerProps;
  state : ContainerState
}.

(** A backend call that has not settled yet, with the rest of the
    [async] function that awaits it and the instance whose setters that
    function calls. *)
Record Task : Type := mkTask {
  owner : nat;
  request : GenerateContentParameters;
  resume : BackendOutcome -> M unit
}.

Record System : Type := mkSystem {
  appState : App.State;
  mounted : option Instance;
  pending : list Task;
  next_iid : nat
}.

Definition initial_system : System :=
  {| appState := App.initial; mounted := None; pending := []; next_iid := O |}.

(** An [async] function whose component is unmounted goes on, but its
    setter calls do nothing. *)
Fixpoint run_detached {A : Type} (m : M A) : Suspended A :=
  match m with
  | Ret a => Finished (inl a)
  | Throw e => Finished (inr e)
  | Update _ k => run_detached k
  | Await req k => Waiting req k
  end.

(** The call a suspended function waits for, as a task of [who]. *)
Definition tasks_of (who : nat) (w : Suspended unit) : list Task :=
  match w with
  | Finished _ => []
  | Waiting req k => [ {| owner := who; request := req; resume := k |} ]
  end.

Definition option_eqb (a b : option jsstring) : bool :=
  match a, b with
  | None, None => true
  | Some x, Some y => jsstring_eqb x y
  | _, _ => false
  end.

(** The dependencies of the generation effect are unchanged. *)
Definition same_deps (p q : ContentContainerProps) : bool :=
  jsstring_eqb (contentBasis p) (contentBasis q)
  && option_eqb (preSeededSpec p) (preSeededSpec q)
  && option_eqb (preSeededCode p) (preSeededCode q).

Definition isLoading (s : ContainerState) : bool :=
  match loadingState s with
  | loading_spec | loading_code => true
  | _ => false
  end.

(** Mount a new instance with the key and props of this render and run
    its generation effect up to the first [await]. *)
Definition mount (a : App.State) (fresh : nat) : Instance * list Task :=
  let p := App.container_props a in
  let '(s, w) := run_sync (generateContent p) (initial_state p) in
  ({| iid := fresh; key := App.reloadCounter a; props := p; state := s |},
   tasks_of fresh w).

(** One render of [App] after its state has changed: the component is
    rendered only when there is a video URL; an instance is kept when its
    key is unchanged (its effect runs again when its dependencies have
    changed) and replaced by a new one otherwise.  The mounted instance
    then reports its loading state. *)
Definition render (a : App.State) (old : option Instance)
  (queue : list Task) (fresh : nat) : System :=
  if negb (truthy (App.videoUrl a)) then
    {| appState := a; mounted := None; pending := queue; next_iid := fresh |}
  else
    let '(inst, started, fresh') :=
      match old with
      | Some i =>
          if App.reloadCounter a =? key i then
            let p := App.container_props a in
            if same_deps (props i) p then (i, [], fresh)
            else
              let '(s, w) := run_sync (generateContent p) (state i) in
              ({| iid := iid i; key := key i; props := p; state := s |},
               tasks_of (iid i) w, fresh)
          else
            let '(i', ts) := mount a fresh in (i', ts, S fresh)
      | None =>
          let '(i', ts) := mount a fresh in (i', ts, S fresh)
      end in
    {| appState := App.handleContentLoadingStateChange (isLoading (state inst)) a;
       mounted := Some inst;
       pending := queue ++ started;
       next_iid := fresh' |}.

(** What can happen in a session. *)
Inductive Event : Type :=
  | ExampleSelect (example : Example.t)
  | Submit (raw : jsstring) (isPreSeededExample : bool)
  | Validated (inputValue : jsstring) (isValid : bool)
  | InputChange
  | Settle (n : nat) (outcome : BackendOutcome)
  | SpecEdit
  | SpecEditorChange (value : option jsstring)
  | SpecSave
  | SpecCancel
  | CodeChange (value : option jsstring).

(** A handler of the mounted component runs up to its first [await]. *)
Definition in_component (handler : ContainerState -> M unit) (sys : System)
  : System :=
  match mounted sys with
  | None => sys
  | Some i =>
      let '(s, w) := run_sync (handler (state i)) (state i) in
      render (appState sys)
             (Some {| iid := iid i; key := key i; props := props i;
                      state := s |})
             (pending sys ++ tasks_of (iid i) w) (next_iid sys)
  end.

(** The [n]-th pending call settles: the function awaiting it goes on
    to its next [await].  Its setter calls reach the state only when the
    instance that started it is still the mounted one. *)
Definition settle (n : nat) (outcome : BackendOutcome) (sys : System)
  : System :=
  match nth_error (pending sys) n with
  | None => sys
  | Some t =>
      let queue := firstn n (pending sys) ++ skipn (S n) (pending sys) in
      match mounted sys with
      | Some i =>
          if Nat.eqb (owner t) (iid i) then
            let '(s, w) := run_sync (resume t outcome) (state i) in
            render (appState sys)
                   (Some {| iid := iid i; key := key i; props := props i;
                            state := s |})
                   (queue ++ tasks_of (owner t) w) (next_iid sys)
          else
            render (appState sys) (mounted sys)
                   (queue ++ tasks_of (owner t)
                               (run_detached (resume t outcome)))
                   (next_iid sys)
      | None =>
          render (appState sys) None
                 (queue ++ tasks_of (owner t)
                             (run_detached (resume t outcome)))
                 (next_iid sys)
      end
  end.

Definition step (sys : System) (e : Event) : System :=
  match e with
  | ExampleSelect example =>
      render (App.handleExampleSelect example (appState sys))
             (mounted sys) (pending sys) (next_iid sys)
  | Submit raw isPreSeededExample =>
      render (App.handleSubmit raw isPreSeededExample (appState sys))
             (mounted sys) (pending sys) (next_iid sys)
  | Validated inputValue isValid =>
      render (App.handleSubmit_validated inputValue isValid (appState sys))
             (mounted sys) (pending sys) (next_iid sys)
  | InputChange =>
      render (App.handleInputChange (appState sys))
             (mounted sys) (pending sys) (next_iid sys)
  | Settle n outcome => settle n outcome sys
  | SpecEdit => in_component handleSpecEdit sys
  | SpecEditorChange value =>
      in_component (fun _ => call (setEditedSpec (or_empty value)) ;; Ret tt)
                   sys
  | SpecSave => in_component handleSpecSave sys
  | SpecCancel => in_component (fun _ => handleSpecCancel) sys
  | CodeChange value => in_component (fun _ => handleCodeChange value) sys
  end.

(** The session after a sequence of events. *)
Definition exec (sys : System) (events : list Event) : System :=
  fold_left step events sys.

(** The events that assign a content basis: the selection of an example
    ([handleExampleSelect]), and the two ways [handleSubmit] reaches
    [proceedWithVideo], at once for a non-blank input taken while no URL
    is being validated and found among the examples (or when validation is
    switched off), or once [validateYoutubeUrl] has accepted the input. *)
Definition reassigns_basis (sys : System) (e : Event) : Prop :=
  match e with
  | ExampleSelect _ => True
  | Submit raw isPreSeededExample =>
      truthy (trim raw) = true
      /\ App.urlValidating (appState sys) = false
      /\ (isPreSeededExample = true \/ App.VALIDATE_INPUT_URL = false)
  | Validated _ isValid => isValid = true
  | _ => False
  end.

(** The statements of [generateSpecFromVideo] that follow its [await]:
    the spec read from the answer, with the addendum. *)
Definition spec_of_response (specResponse : jsstring) : Result jsstring :=
  match parseJSON specResponse with
  | inr e => inr e
  | inl parsed =>
      match read_spec parsed with
      | inr e => inr e
      | inl spec0 => plus_string spec0 SPEC_ADDENDUM
      end
  end.

(** How a handler of [App] moves the run counter: it leaves it, and then
    leaves the video URL or clears it, with the selected example left or
    cleared; or it adds one to it. *)
Definition keeps_or_starts_run (a a' : App.State) : Prop :=
  (App.reloadCounter a' = App.reloadCounter a
   /\ (App.videoUrl a' = []
       \/ (App.videoUrl a' = App.videoUrl a
           /\ App.selectedExample a' = App.selectedExample a)))
  \/ App.reloadCounter a' = App.reloadCounter a + 1.

(** What every render establishes: a component is mounted exactly
    when there is a video URL; its key is the run counter, its props are
    the ones [App] computes, its loading state has been reported; and
    every instance and every owner of a pending call was made before
    [next_iid]. *)
Definition session_invariant (sys : System) : Prop :=
  (mounted sys = None -> truthy (App.videoUrl (appState sys)) = false)
  /\ (forall i, mounted sys = Some i ->
        truthy (App.videoUrl (appState sys)) = true
        /\ key i = App.reloadCounter (appState sys)
        /\ props i = App.container_props (appState sys)
        /\ App.contentLoading (appState sys) = isLoading (state i)
        /\ (iid i < next_iid sys)%nat)
  /\ (forall t, In t (pending sys) -> (owner t < next_iid sys)%nat).

(** The mounted instance, if any, was made at [b] or later. *)
Definition instances_from (b : nat) (sys : System) : Prop :=
  (b <= next_iid sys)%nat
  /\ (forall i, mounted sys = Some i -> (b <= iid i)%nat).

(* ---------------------------------------------------------------- *)
(** *** Sample data, for concrete runs *)
(* ---------------------------------------------------------------- *)

(** A response that passes every check of [generateText]. *)
Definition stop_response (t : jsstring) : GenerateContentResponse :=
  {| promptFeedback := None;
     candidates := Some [ {| finishReason := Some FinishReason_STOP |} ];
     text := t |}.

(** A response whose first candidate finished for [reason]. *)
Definition finished_response (reason t : jsstring) : GenerateContentResponse :=
  {| promptFeedback := None;
     candidates := Some [ {| finishReason := Some reason |} ];
     text := t |}.

(** A response whose prompt was blocked for [reason]. *)
Definition blocked_response (reason : jsstring) : GenerateContentResponse :=
  {| promptFeedback := Some {| blockReason := Some reason |};
     candidates := None;
     text := [] |}.

Definition sample_key : option jsstring := Some (js "k3y").
Definition sample_prompt : jsstring := js "Describe an app for this video.".
Definition sample_addendum : jsstring := js " Keep it in one file.".
Definition sample_opener : jsstring := js "```html".
Definition sample_closer : jsstring := js "```".
Definition sample_syntax_message (t : jsstring) : jsstring :=
  js "Unexpected token".
Definition sample_type_message : jsstring :=
  js "Cannot read properties of null".
Definition sample_to_primitive (v : json) : Result jsstring :=
  inl (js "[object Object]").

(** [s] between double quotes. *)
Definition quoted (s : jsstring) : jsstring := 34%N :: s ++ [34%N].

(** A stage-one answer: some words around the object whose [spec]
    member is [S1]. *)
Definition sample_spec_text : jsstring :=
  js "Sure: {" ++ quoted (js "spec") ++ js ": " ++ quoted (js "S1")
  ++ js "} Done.".

(** A stage-two answer: a fenced document. *)
Definition sample_code_text : jsstring :=
  sample_opener ++ js "<!DOCTYPE html>CODE1</html>" ++ sample_closer.

Definition sample_props (url : jsstring) : ContentContainerProps :=
  {| contentBasis := url; preSeededSpec := None; preSeededCode := None |}.

Definition sample_options : GenerateTextOptions :=
  {| modelName := js "gemini-2.0-flash";
     prompt := sample_prompt;
     videoUrl := None;
     temperature := None |}.

Definition sample_task : Task :=
  {| owner := O;
     request := build_request sample_options;
     resume := fun _ => Ret tt |}.

Definition sample_example : Example.t :=
  {| Example.title := js "Second video";
     Example.url := js "https://www.youtube.com/watch?v=V2";
     Example.spec := [];
     Example.code := [] |}.

Definition sample_state (stored edited : jsstring) : ContainerState :=
  {| spec := stored;
     code := js "<!DOCTYPE html><p>old</p>";
     saveMessage := [];
     loadingState := ready;
     error := None;
     isEditingSpec := true;
     editedSpec := edited;
     activeTabIndex := 2 |}.

(** Most facts below do not depend on the environment of the
    pipeline; their proofs start by forgetting it. *)
Ltac forget_environment :=
  try clear to_primitive_string; try clear type_error_message;
  try clear syntax_error_message; try clear CODE_REGION_CLOSER;
  try clear CODE_REGION_OPENER; try clear SPEC_ADDENDUM;
  try clear SPEC_FROM_VIDEO_PROMPT; try clear GEMINI_API_KEY.

(* ================================================================ *)
(** ** Properties: strings *)
(* ================================================================ *)

Lemma jsstring_eqb_eq (a b : jsstring) : jsstring_eqb a b = true <-> a = b.
Proof.
  forget_environment.
  revert b; induction a as [|x a IH]; intros [|y b]; simpl;
    try (split; [discriminate | discriminate]); try tauto.
  rewrite andb_true_iff, N.eqb_eq, IH.
  split; [intros [-> ->]; reflexivity | intros H; inversion H; auto].
Qed.

Lemma jsstring_eqb_refl (a : jsstring) : jsstring_eqb a a = true.
Proof. apply jsstring_eqb_eq; reflexivity. Qed.

Lemma jsstring_eqb_neq (a b : jsstring) : a <> b -> jsstring_eqb a b = false.
Proof.
  intros H; destruct (jsstring_eqb a b) eqn:E; [|reflexivity].
  apply jsstring_eqb_eq in E; contradiction.
Qed.

Lemma starts_with_prefix (pat s : jsstring) :
  starts_with pat s = true <-> exists t, s = pat ++ t.
Proof.
  revert s; induction pat as [|p pat IH]; intros s; simpl.
  - split; [intros _; exists s; reflexivity | reflexivity].
  - destruct s as [|c s].
    + split; [discriminate | intros [t H]; discriminate].
    + rewrite andb_true_iff, N.eqb_eq, IH. split.
      * intros [-> [t ->]]; exists t; reflexivity.
      * intros [t H]; inversion H; subst; split; [reflexivity | eauto].
Qed.

Lemma index_from_spec (pat s : jsstring) (k : Z) :
  0 <= k ->
  (index_from pat s k = -1 /\ forall pre, ~ occurs_after pat s pre)
  \/ (exists pre, occurs_after pat s pre
        /\ index_from pat s k = k + Z.of_nat (length pre)
        /\ forall pre', occurs_after pat s pre' ->
                        (length pre <= length pre')%nat).
Proof.
  revert k; induction s as [|c s IH]; intros k Hk;
    cbn [index_from]; destruct (starts_with pat _) eqn:E.
  - right; exists []. apply starts_with_prefix in E. split; [exact E|].
    split; [simpl; lia | intros; simpl; lia].
  - left; split; [reflexivity|]. intros pre [post H].
    destruct pre; [|discriminate]. simpl in H.
    assert (starts_with pat [] = true)
      by (apply starts_with_prefix; eauto). congruence.
  - right; exists []. apply starts_with_prefix in E. split; [exact E|].
    split; [simpl; lia | intros; simpl; lia].
  - assert (Hnil : ~ occurs_after pat (c :: s) []).
    { intros [post H]. simpl in H.
      assert (starts_with pat (c :: s) = true)
        by (apply starts_with_prefix; eauto). congruence. }
    destruct (IH (k + 1)) as [[R N] | [pre [[post O] [R Min]]]]; [lia | |].
    + left; split; [exact R|]. intros [|x pre] O; [exact (Hnil O)|].
      destruct O as [post O]. inversion O; subst.
      apply (N pre). exists post; reflexivity.
    + right; exists (c :: pre). split; [exists post; subst; reflexivity|].
      split; [rewrite R; simpl length; lia|].
      intros [|x pre'] O'; [destruct (Hnil O')|].
      destruct O' as [post' O']. inversion O'.
      simpl. apply le_n_S, Min. exists post'; assumption.
Qed.

Lemma last_index_from_spec (pat s : jsstring) (k : Z) :
  0 <= k ->
  (last_index_from pat s k = -1 /\ forall pre, ~ occurs_after pat s pre)
  \/ (exists pre, occurs_after pat s pre
        /\ last_index_from pat s k = k + Z.of_nat (length pre)
        /\ forall pre', occurs_after pat s pre' ->
                        (length pre' <= length pre)%nat).
Proof.
  revert k; induction s as [|c s IH]; intros k Hk; cbn [last_index_from].
  - destruct (starts_with pat []) eqn:E.
    + right; exists []. apply starts_with_prefix in E. split; [exact E|].
      split; [simpl; lia|]. intros pre' [post H].
      destruct pre'; [simpl; lia | discriminate].
    + left; split; [reflexivity|]. intros pre [post H].
      destruct pre; [|discriminate]. simpl in H.
      assert (starts_with pat [] = true)
        by (apply starts_with_prefix; eauto). congruence.
  - destruct (IH (k + 1)) as [[R N] | [pre [[post O] [R Max]]]]; [lia | |].
    + rewrite R. change (0 <=? -1) with false. cbv iota.
      destruct (starts_with pat (c :: s)) eqn:E.
      * right; exists []. apply starts_with_prefix in E. split; [exact E|].
        split; [simpl; lia|]. intros [|x pre'] O'; [simpl; lia|].
        destruct O' as [post' O']. inversion O'; subst.
        destruct (N pre'). exists post'; reflexivity.
      * left; split; [reflexivity|]. intros [|x pre'] [post' O'].
        -- simpl in O'.
           assert (starts_with pat (c :: s) = true)
             by (apply starts_with_prefix; eauto). congruence.
        -- inversion O'; subst. apply (N pre'). exists post'; reflexivity.
    + rewrite R.
      destruct (0 <=? k + 1 + Z.of_nat (length pre)) eqn:E;
        [|apply Z.leb_gt in E; lia].
      right; exists (c :: pre). split; [exists post; subst; reflexivity|].
      split; [simpl length; lia|].
      intros [|x pre'] O'; [simpl; lia|].
      destruct O' as [post' O']. inversion O'.
      simpl. apply le_n_S, Max. exists post'; assumption.
Qed.

(** [indexOf] answers [-1] when the pattern does not occur, and the
    index of its first occurrence otherwise. *)
Lemma indexOf_spec (s pat : jsstring) :
  (indexOf s pat = -1 /\ forall pre, ~ occurs_after pat s pre)
  \/ (exists pre, occurs_after pat s pre
        /\ indexOf s pat = Z.of_nat (length pre)
        /\ forall pre', occurs_after pat s pre' ->
                        (length pre <= length pre')%nat).
Proof.
  unfold indexOf.
  destruct (index_from_spec pat s 0) as [H | [pre [O [R Min]]]];
    [lia | left; exact H | right; exists pre; rewrite R; auto].
Qed.

(** [lastIndexOf] answers [-1] when the pattern does not occur, and the
    index of its last occurrence otherwise. *)
Lemma lastIndexOf_spec (s pat : jsstring) :
  (lastIndexOf s pat = -1 /\ forall pre, ~ occurs_after pat s pre)
  \/ (exists pre, occurs_after pat s pre
        /\ lastIndexOf s pat = Z.of_nat (length pre)
        /\ forall pre', occurs_after pat s pre' ->
                        (length pre' <= length pre)%nat).
Proof.
  unfold lastIndexOf.
  destruct (last_index_from_spec pat s 0) as [H | [pre [O [R Max]]]];
    [lia | left; exact H | right; exists pre; rewrite R; auto].
Qed.

Lemma slice_app (pre mid post : jsstring) :
  slice (pre ++ mid ++ post) (Z.of_nat (length pre))
        (Z.of_nat (length pre + length mid)) = mid.
Proof.
  unfold slice.
  replace (Z.to_nat (Z.of_nat (length pre + length mid)
                     - Z.of_nat (length pre))) with (length mid) by lia.
  rewrite Nat2Z.id, skipn_app, skipn_all, Nat.sub_diag. simpl.
  rewrite firstn_app, firstn_all, Nat.sub_diag. simpl.
  apply app_nil_r.
Qed.

(** Within bounds and in order, [substring] takes the plain slice. *)
Lemma substring_slice (s : jsstring) (a b : Z) :
  0 <= a <= b -> b <= Z.of_nat (length s) -> substring s a b = slice s a b.
Proof.
  intros H1 H2. unfold substring, clamp.
  replace (Z.min (Z.max a 0) (Z.of_nat (length s))) with a by lia.
  replace (Z.min (Z.max b 0) (Z.of_nat (length s))) with b by lia.
  rewrite Z.min_l, Z.max_r by lia. reflexivity.
Qed.

(** With an end of [-1], [substring] answers what precedes [start]. *)
Lemma substring_to_minus_one (s : jsstring) (a : Z) :
  a <= Z.of_nat (length s) ->
  substring s a (-1) = firstn (Z.to_nat a) s.
Proof.
  intros H. unfold substring, clamp, slice.
  replace (Z.min (Z.max (-1) 0) (Z.of_nat (length s))) with 0 by lia.
  replace (Z.min (Z.max a 0) (Z.of_nat (length s))) with (Z.max a 0) by lia.
  rewrite Z.min_r, Z.max_l by lia. simpl skipn.
  f_equal. lia.
Qed.

Lemma trim_start_suffix (s : jsstring) : exists w, s = w ++ trim_start s.
Proof.
  induction s as [|c s [w IH]]; simpl.
  - exists []; reflexivity.
  - destruct (is_white_space c).
    + exists (c :: w); simpl; congruence.
    + exists []; reflexivity.
Qed.

Lemma trim_start_head (s t : jsstring) (c : N) :
  trim_start s = c :: t -> is_white_space c = false.
Proof.
  induction s as [|x s IH]; simpl; [discriminate|].
  destruct (is_white_space x) eqn:E; [exact IH|].
  intros H; inversion H; subst; exact E.
Qed.

(** A trimmed string does not begin with white space. *)
Lemma trim_head (s t : jsstring) (c : N) :
  trim s = c :: t -> is_white_space c = false.
Proof.
  unfold trim, trim_end. intros H.
  destruct (trim_start_suffix (rev (trim_start s))) as [w Hw].
  apply (f_equal (@rev N)) in Hw. rewrite rev_involutive, rev_app_distr in Hw.
  rewrite H in Hw. simpl in Hw.
  apply (trim_start_head s (t ++ rev w)). exact Hw.
Qed.

(** A trimmed string does not end with white space. *)
Lemma trim_last (s t : jsstring) (c : N) :
  trim s = t ++ [c] -> is_white_space c = false.
Proof.
  unfold trim, trim_end. intros H.
  apply (f_equal (@rev N)) in H. rewrite rev_involutive, rev_app_distr in H.
  simpl in H. exact (trim_start_head _ _ _ H).
Qed.

Lemma indexOf_absent (s pat : jsstring) :
  indexOf s pat = -1 -> forall pre, ~ occurs_after pat s pre.
Proof.
  intros H. destruct (indexOf_spec s pat) as [[_ N] | [pre [_ [R _]]]];
    [exact N | lia].
Qed.

Lemma indexOf_first (s pat : jsstring) (n : nat) :
  indexOf s pat = Z.of_nat n ->
  forall pre, occurs_after pat s pre -> (n <= length pre)%nat.
Proof.
  intros H. destruct (indexOf_spec s pat) as [[R _] | [pre [_ [R Min]]]];
    [lia|].
  intros pre' O. specialize (Min pre' O). lia.
Qed.

Lemma lastIndexOf_absent (s pat : jsstring) :
  lastIndexOf s pat = -1 -> forall pre, ~ occurs_after pat s pre.
Proof.
  intros H. destruct (lastIndexOf_spec s pat) as [[_ N] | [pre [_ [R _]]]];
    [exact N | lia].
Qed.

Lemma lastIndexOf_last (s pat : jsstring) (n : nat) :
  lastIndexOf s pat = Z.of_nat n ->
  forall pre, occurs_after pat s pre -> (length pre <= n)%nat.
Proof.
  intros H. destruct (lastIndexOf_spec s pat) as [[R _] | [pre [_ [R Max]]]];
    [lia|].
  intros pre' O. specialize (Max pre' O). lia.
Qed.

(** Two prefixes of one string that are equally long are equal. *)
Lemma prefix_unique (a b x y : jsstring) :
  a ++ x = b ++ y -> length a = length b -> a = b.
Proof.
  revert b; induction a as [|c a IH]; intros [|d b] H L;
    try discriminate; [reflexivity|].
  simpl in H, L. inversion H; subst. f_equal. apply IH; [assumption | lia].
Qed.

Lemma occurs_after_length (pat s pre : jsstring) :
  occurs_after pat s pre -> (length pre + length pat <= length s)%nat.
Proof.
  intros [post ->]. rewrite !length_app. lia.
Qed.

(* ================================================================ *)
(** ** Properties: [parseHTML] *)
(* ================================================================ *)

(** C5.  On the text [prefix <!DOCTYPE html><html></html> END] with
    opener [X] and closer [END], [parseHTML] returns
    [<!DOCTYPE html><html></html> ] (with the space): the result starts
    at the marker, index 7, and stops at index 36 where the last [END]
    starts, so the closer itself is not part of it. *)
Theorem parseHTML_stops_where_closer_starts :
  parseHTML (js "prefix <!DOCTYPE html><html></html> END") (js "X") (js "END")
  = js "<!DOCTYPE html><html></html> "
  /\ indexOf (js "prefix <!DOCTYPE html><html></html> END") DOCTYPE = 7
  /\ lastIndexOf (js "prefix <!DOCTYPE html><html></html> END") (js "END")
     = 36
  /\ parseHTML (js "prefix <!DOCTYPE html><html></html> END") (js "X")
               (js "END")
     <> js "<!DOCTYPE html><html></html> END".
Proof.
  repeat split; try (vm_compute; reflexivity).
  vm_compute. discriminate.
Qed.

(** C9.  [parseHTML] is a total function on strings (none of [indexOf],
    [lastIndexOf], [substring] throws).  When the closer does not occur in
    the text, it returns what precedes the first [<!DOCTYPE html>]
    marker, and the empty string when the marker does not occur either
    (or stands at index 0): the end index [-1] is clamped to 0 and the
    two indices are swapped. *)
Theorem parseHTML_without_closer (str opener closer : jsstring) :
  (forall pre, ~ occurs_after closer str pre) ->
  (forall pre,
      occurs_after DOCTYPE str pre ->
      (forall pre', occurs_after DOCTYPE str pre' ->
                    (length pre <= length pre')%nat) ->
      parseHTML str opener closer = pre)
  /\ ((forall pre, ~ occurs_after DOCTYPE str pre) ->
      parseHTML str opener closer = []).
Proof.
  intros Hno.
  assert (E : lastIndexOf str closer = -1).
  { destruct (lastIndexOf_spec str closer) as [[R _] | [pre [O _]]];
      [exact R | destruct (Hno pre O)]. }
  unfold parseHTML. rewrite E. split.
  - intros pre O Min.
    destruct (indexOf_spec str DOCTYPE) as [[_ N] | [p [Op [R Minp]]]];
      [destruct (N pre O)|].
    assert (L : length p = length pre)
      by (apply Nat.le_antisymm; [apply Minp, O | apply Min, Op]).
    pose proof (occurs_after_length _ _ _ Op) as Len.
    rewrite R, substring_to_minus_one by lia. rewrite Nat2Z.id.
    destruct Op as [post1 E1]. destruct O as [post2 E2].
    assert (p = pre) by (apply (prefix_unique _ _ (DOCTYPE ++ post1)
                                  (DOCTYPE ++ post2)); congruence).
    subst p. rewrite E1 at 1.
    rewrite firstn_app, firstn_all, Nat.sub_diag. simpl. apply app_nil_r.
  - intros N.
    destruct (indexOf_spec str DOCTYPE) as [[R _] | [p [Op _]]];
      [|destruct (N p Op)].
    rewrite R, substring_to_minus_one by lia. reflexivity.
Qed.

(* ================================================================ *)
(** ** Properties: [JSON.parse] and [parseJSON] *)
(* ================================================================ *)

Lemma skip_ws_split (s : jsstring) : exists w, s = w ++ skip_ws s.
Proof.
  induction s as [|c s [w IH]]; simpl.
  - exists []; reflexivity.
  - destruct (is_json_ws c).
    + exists (c :: w); simpl; congruence.
    + exists []; reflexivity.
Qed.

Lemma skip_ws_nil (s : jsstring) :
  skip_ws s = [] -> forall x, In x s -> is_json_ws x = true.
Proof.
  forget_environment.
  induction s as [|c s IH]; simpl; [tauto|].
  destruct (is_json_ws c) eqn:E; [|discriminate].
  intros H x [<- | Hx]; auto.
Qed.

(** A string literal is read up to its closing quote. *)
Lemma parse_string_body_consumes (n : nat) :
  forall s acc str r,
    (length s <= n)%nat ->
    parse_string_body s acc = Some (str, r) ->
    exists pre, s = pre ++ 34%N :: r.
Proof.
  induction n as [|n IH]; intros [|c t] acc str r L; simpl;
    try discriminate; try (simpl in L; lia).
  simpl in L.
  destruct (c =? 34)%N eqn:Q.
  { intros H; inversion H; subst. apply N.eqb_eq in Q; subst.
    exists []; reflexivity. }
  destruct (c <? 32)%N; [discriminate|].
  destruct (c =? 92)%N.
  - destruct t as [|e t1]; [discriminate|].
    destruct (e =? 117)%N.
    + destruct t1 as [|h1 [|h2 [|h3 [|h4 t2]]]]; try discriminate.
      destruct (hex_value h1), (hex_value h2), (hex_value h3),
        (hex_value h4); try discriminate.
      intros H. apply IH in H; [|simpl in L; lia].
      destruct H as [pre ->].
      exists (c :: e :: h1 :: h2 :: h3 :: h4 :: pre); reflexivity.
    + destruct (escape_char e); [|discriminate].
      intros H. apply IH in H; [|simpl in L; lia].
      destruct H as [pre ->]. exists (c :: e :: pre); reflexivity.
  - intros H. apply IH in H; [|lia].
    destruct H as [pre ->]. exists (c :: pre); reflexivity.
Qed.

Lemma take_digits_spec (s : jsstring) :
  forall d r, take_digits s = (d, r) ->
              s = d ++ r /\ forall x, In x d -> is_digit x = true.
Proof.
  forget_environment.
  induction s as [|c s IH]; simpl; intros d r H.
  - inversion H; subst; split; [reflexivity | simpl; tauto].
  - destruct (is_digit c) eqn:E.
    + destruct (take_digits s) as [d' r'] eqn:T. inversion H; subst.
      destruct (IH _ _ eq_refl) as [-> All]. split; [reflexivity|].
      intros x [<- | Hx]; auto.
    + inversion H; subst; split; [reflexivity | simpl; tauto].
Qed.

(** The last code unit of [tok] is a digit. *)
Lemma digits_end_with_digit (pfx d : jsstring) :
  d <> [] -> (forall x, In x d -> is_digit x = true) ->
  exists p c, pfx ++ d = p ++ [c] /\ is_digit c = true.
Proof.
  intros Hne All. destruct (exists_last Hne) as [p [c ->]].
  exists (pfx ++ p), c. rewrite app_assoc. split; [reflexivity|].
  apply All, in_or_app; right; left; reflexivity.
Qed.

Lemma parse_int_part_spec (s i r : jsstring) :
  parse_int_part s = Some (i, r) ->
  s = i ++ r /\ exists p c, i = p ++ [c] /\ is_digit c = true.
Proof.
  destruct s as [|c t]; simpl; [discriminate|].
  destruct (c =? 48)%N eqn:Z0.
  - intros H; inversion H; subst. split; [reflexivity|].
    exists [], c. apply N.eqb_eq in Z0; subst. split; reflexivity.
  - destruct (is_digit c) eqn:D; [|discriminate].
    destruct (take_digits t) as [d r'] eqn:T. intros H; inversion H; subst.
    destruct (take_digits_spec _ _ _ T) as [-> All].
    split; [reflexivity|].
    apply (digits_end_with_digit [] (c :: d)); [discriminate|].
    intros x [<- | Hx]; auto.
Qed.

Lemma parse_frac_part_spec (s f r : jsstring) :
  parse_frac_part s = Some (f, r) ->
  s = f ++ r /\ (f = [] \/ exists p c, f = p ++ [c] /\ is_digit c = true).
Proof.
  destruct s as [|c t]; simpl.
  - intros H; inversion H; subst; split; [reflexivity | left; reflexivity].
  - destruct (c =? 46)%N.
    + destruct (take_digits t) as [d r'] eqn:T.
      destruct (take_digits_spec _ _ _ T) as [-> All].
      destruct d as [|d0 d]; [discriminate|].
      intros H; inversion H; subst. split; [reflexivity|]. right.
      apply (digits_end_with_digit [c] (d0 :: d)); [discriminate | exact All].
    + intros H; inversion H; subst; split; [reflexivity | left; reflexivity].
Qed.

Lemma parse_exp_part_spec (s e r : jsstring) :
  parse_exp_part s = Some (e, r) ->
  s = e ++ r /\ (e = [] \/ exists p c, e = p ++ [c] /\ is_digit c = true).
Proof.
  destruct s as [|c t]; simpl.
  - intros H; inversion H; subst; split; [reflexivity | left; reflexivity].
  - destruct ((c =? 101) || (c =? 69))%N.
    + destruct t as [|x u]; [simpl; discriminate|].
      destruct ((x =? 43) || (x =? 45))%N; cbv beta iota.
      * destruct (take_digits u) as [d r'] eqn:T.
        destruct (take_digits_spec _ _ _ T) as [-> All].
        destruct d as [|d0 d]; [discriminate|].
        intros H; inversion H; subst. split; [reflexivity|]. right.
        apply (digits_end_with_digit [c; x] (d0 :: d));
          [discriminate | exact All].
      * destruct (take_digits (x :: u)) as [d r'] eqn:T.
        destruct (take_digits_spec _ _ _ T) as [E All].
        destruct d as [|d0 d]; [discriminate|].
        intros H; inversion H; subst. split; [simpl; rewrite E; reflexivity|].
        right.
        apply (digits_end_with_digit [c] (d0 :: d));
          [discriminate | exact All].
    + intros H; inversion H; subst; split; [reflexivity | left; reflexivity].
Qed.

(** A number literal is a prefix of the input and ends with a digit. *)
Lemma parse_number_consumes (s lit r : jsstring) :
  parse_number s = Some (lit, r) ->
  exists pre c, s = pre ++ c :: r /\ is_digit c = true.
Proof.
  unfold parse_number.
  assert (S : exists sign s1, s = sign ++ s1 /\
      match s with
      | c :: t => if (c =? 45)%N then ([c], t) else ([], s)
      | [] => ([], s)
      end = (sign, s1)).
  { destruct s as [|c t]; [exists [], []; split; reflexivity|].
    destruct (c =? 45)%N; [exists [c], t | exists [], (c :: t)];
      split; reflexivity. }
  destruct S as [sign [s1 [-> ->]]].
  destruct (parse_int_part s1) as [[i s2]|] eqn:I; [|discriminate].
  destruct (parse_frac_part s2) as [[f s3]|] eqn:F; [|discriminate].
  destruct (parse_exp_part s3) as [[e s4]|] eqn:X; [|discriminate].
  intros H; inversion H; subst.
  destruct (parse_int_part_spec _ _ _ I) as [-> [pi [ci [-> Di]]]].
  destruct (parse_frac_part_spec _ _ _ F) as [-> Hf].
  destruct (parse_exp_part_spec _ _ _ X) as [-> He].
  destruct He as [-> | [pe [ce [-> De]]]].
  - destruct Hf as [-> | [pf [cf [-> Df]]]].
    + exists (sign ++ pi), ci. split; [|exact Di].
      simpl. rewrite <- !app_assoc. reflexivity.
    + exists (sign ++ (pi ++ [ci]) ++ pf), cf. split; [|exact Df].
      simpl. rewrite <- !app_assoc. reflexivity.
  - exists (sign ++ (pi ++ [ci]) ++ f ++ pe), ce. split; [|exact De].
    simpl. rewrite <- !app_assoc. reflexivity.
Qed.

Lemma parse_literal_consumes (s : jsstring) (v : json) (r : jsstring) :
  parse_literal s = Some (v, r) ->
  exists pre c, s = pre ++ c :: r /\ c <> 125%N.
Proof.
  unfold parse_literal.
  destruct (starts_with (js "null") s) eqn:A.
  { apply starts_with_prefix in A. destruct A as [t ->].
    intros H; inversion H; subst.
    exists (js "nul"), 108%N. split; [reflexivity | discriminate]. }
  destruct (starts_with (js "true") s) eqn:B.
  { apply starts_with_prefix in B. destruct B as [t ->].
    intros H; inversion H; subst.
    exists (js "tru"), 101%N. split; [reflexivity | discriminate]. }
  destruct (starts_with (js "false") s) eqn:C; [|discriminate].
  apply starts_with_prefix in C. destruct C as [t ->].
  intros H; inversion H; subst.
  exists (js "fals"), 101%N. split; [reflexivity | discriminate].
Qed.

(** Every successful parse reads a non-empty prefix of its input: a
    value that ends with a closing brace began with an opening one, the
    elements of an array end with its bracket, the members of an object
    with its brace. *)
Lemma parse_consumes (n : nat) :
  (forall s v r, parse_value n s = Some (v, r) ->
     exists pre c, s = pre ++ c :: r /\ (c = 125%N -> In 123%N s))
  /\ (forall s acc v r, parse_elements n s acc = Some (v, r) ->
     exists pre, s = pre ++ 93%N :: r)
  /\ (forall s acc v r, parse_members n s acc = Some (v, r) ->
     exists pre, s = pre ++ 125%N :: r).
Proof.
  induction n as [|n [IHv [IHe IHm]]];
    [repeat split; intros; discriminate|].
  repeat split.
  - (* parse_value *)
    intros s v r. cbn [parse_value].
    destruct (skip_ws_split s) as [w Hs].
    destruct (skip_ws s) as [|c t]; [discriminate|].
    destruct (c =? 123)%N eqn:Ob.
    { apply N.eqb_eq in Ob; subst c.
      assert (Hin : In 123%N s)
        by (rewrite Hs; apply in_or_app; right; left; reflexivity).
      destruct (skip_ws_split t) as [w' Ht].
      destruct (skip_ws t) as [|c' r0]; [discriminate|].
      destruct (c' =? 125)%N eqn:Cb.
      - apply N.eqb_eq in Cb; subst c'. intros H; inversion H; subst r0.
        exists (w ++ 123%N :: w'), 125%N. split; [|auto].
        rewrite Hs, Ht, <- app_assoc. reflexivity.
      - intros H. apply IHm in H. destruct H as [pre Hp].
        exists (w ++ 123%N :: w' ++ pre), 125%N. split; [|auto].
        rewrite Hs, Ht, Hp, <- !app_assoc. simpl.
        rewrite <- app_assoc. reflexivity. }
    destruct (c =? 91)%N eqn:Oa.
    { destruct (skip_ws_split t) as [w' Ht].
      destruct (skip_ws t) as [|c' r0]; [discriminate|].
      destruct (c' =? 93)%N eqn:Ca.
      - apply N.eqb_eq in Ca; subst c'. intros H; inversion H; subst r0.
        exists (w ++ c :: w'), 93%N. split; [|discriminate].
        rewrite Hs, Ht, <- app_assoc. reflexivity.
      - intros H. apply IHe in H. destruct H as [pre Hp].
        exists (w ++ c :: w' ++ pre), 93%N. split; [|discriminate].
        rewrite Hs, Ht, Hp, <- !app_assoc. simpl.
        rewrite <- app_assoc. reflexivity. }
    destruct (c =? 34)%N.
    { destruct (parse_string_body t []) as [[str r0]|] eqn:P;
        [|discriminate].
      intros H; inversion H; subst r0.
      destruct (parse_string_body_consumes _ _ _ _ _ (le_n _) P) as [pre Hp].
      exists (w ++ c :: pre), 34%N. split; [|discriminate].
      rewrite Hs, Hp, <- app_assoc. reflexivity. }
    destruct ((c =? 45)%N || is_digit c).
    { destruct (parse_number (c :: t)) as [[lit r0]|] eqn:P; [|discriminate].
      intros H; inversion H; subst r0.
      destruct (parse_number_consumes _ _ _ P) as [pre [d [Hp Hd]]].
      exists (w ++ pre), d. split.
      - rewrite Hs, Hp, <- app_assoc. reflexivity.
      - intros ->. discriminate. }
    intros H. destruct (parse_literal_consumes _ _ _ H) as [pre [d [Hp Hd]]].
    exists (w ++ pre), d. split; [|contradiction].
    rewrite Hs, Hp, <- app_assoc. reflexivity.
  - (* parse_elements *)
    intros s acc v r. cbn [parse_elements].
    destruct (parse_value n s) as [[v0 r0]|] eqn:P; [|discriminate].
    destruct (IHv _ _ _ P) as [pre [c0 [Hs _]]].
    destruct (skip_ws_split r0) as [w Hr].
    destruct (skip_ws r0) as [|c r']; [discriminate|].
    destruct (c =? 44)%N.
    + intros H. apply IHe in H. destruct H as [pre' Hp].
      exists (pre ++ c0 :: w ++ c :: pre').
      rewrite Hs, Hr, Hp, <- !app_assoc. simpl.
      rewrite <- app_assoc. reflexivity.
    + destruct (c =? 93)%N eqn:Ca; [|discriminate].
      apply N.eqb_eq in Ca; subst c. intros H; inversion H; subst r'.
      exists (pre ++ c0 :: w).
      rewrite Hs, Hr, <- !app_assoc. reflexivity.
  - (* parse_members *)
    intros s acc v r. cbn [parse_members].
    destruct (skip_ws_split s) as [w Hs].
    destruct (skip_ws s) as [|q t]; [discriminate|].
    destruct (q =? 34)%N; [|discriminate].
    destruct (parse_string_body t []) as [[k r0]|] eqn:P; [|discriminate].
    destruct (parse_string_body_consumes _ _ _ _ _ (le_n _) P) as [pk Hk].
    destruct (skip_ws_split r0) as [w0 Hr0].
    destruct (skip_ws r0) as [|colon r1]; [discriminate|].
    destruct (colon =? 58)%N; [|discriminate].
    destruct (parse_value n r1) as [[v0 r2]|] eqn:V; [|discriminate].
    destruct (IHv _ _ _ V) as [pv [cv [Hv _]]].
    destruct (skip_ws_split r2) as [w2 Hr2].
    destruct (skip_ws r2) as [|c r3]; [discriminate|].
    assert (Hall : s = (w ++ q :: pk ++ 34%N :: w0 ++ colon :: pv
                          ++ cv :: w2) ++ c :: r3).
    { rewrite Hs, Hk, Hr0, Hv, Hr2.
      repeat (rewrite <- app_assoc; simpl). reflexivity. }
    destruct (c =? 44)%N.
    + intros H. apply IHm in H. destruct H as [pre' Hp].
      exists ((w ++ q :: pk ++ 34%N :: w0 ++ colon :: pv ++ cv :: w2)
                ++ c :: pre').
      rewrite Hall, Hp at 1. rewrite <- !app_assoc. reflexivity.
    + destruct (c =? 125)%N eqn:Cb; [|discriminate].
      apply N.eqb_eq in Cb; subst c. intros H; inversion H; subst r3.
      eexists; exact Hall.
Qed.

(** A text that [JSON.parse] accepts and that ends with a closing brace
    holds an opening brace, whatever the fuel. *)
Lemma JSON_parse_closing_needs_opening (fuel : nat) (q : jsstring) (v : json) :
  JSON_parse_fuel fuel (q ++ [125%N]) = Some v -> In 123%N (q ++ [125%N]).
Proof.
  forget_environment.
  unfold JSON_parse_fuel.
  destruct (parse_value fuel (q ++ [125%N])) as [[v0 r]|] eqn:P;
    [|discriminate].
  destruct (proj1 (parse_consumes fuel) _ _ _ P) as [pre [c [Hs Hc]]].
  destruct (skip_ws r) eqn:W; [|discriminate]. intros _.
  pose proof (skip_ws_nil r W) as Hws.
  destruct r as [|x r'].
  - apply Hc. apply app_inj_tail in Hs. symmetry; tauto.
  - exfalso. destruct (@exists_last _ (x :: r')) as [r0 [y Hy]];
      [discriminate|].
    rewrite Hy in Hs, Hws.
    change (pre ++ c :: r0 ++ [y]) with (pre ++ (c :: r0) ++ [y]) in Hs.
    rewrite app_assoc in Hs. apply app_inj_tail in Hs.
    destruct Hs as [_ <-].
    assert (Hin : In 125%N (r0 ++ [125%N]))
      by (apply in_or_app; right; left; reflexivity).
    apply Hws in Hin. discriminate.
Qed.

(** Turn an equation between strings into one between their lengths. *)
Ltac len H :=
  apply (f_equal (@length N)) in H; rewrite ?length_app in H; simpl in H.

(** Twice the number of code units read is fuel enough. *)
Lemma parse_fuel_enough (n : nat) :
  (forall s v r, parse_value n s = Some (v, r) ->
     forall m, (2 * (length s - length r) <= m)%nat ->
               parse_value m s = Some (v, r))
  /\ (forall s acc v r, parse_elements n s acc = Some (v, r) ->
     forall m, (2 * (length s - length r) <= m)%nat ->
               parse_elements m s acc = Some (v, r))
  /\ (forall s acc v r, parse_members n s acc = Some (v, r) ->
     forall m, (2 * (length s - length r) <= m)%nat ->
               parse_members m s acc = Some (v, r)).
Proof.
  forget_environment.
  induction n as [|n [IHv [IHe IHm]]];
    [repeat split; intros; discriminate|].
  destruct (parse_consumes n) as [Cv [Ce Cm]].
  destruct (parse_consumes (S n)) as [Cv' [Ce' Cm']].
  repeat split.
  - (* parse_value *)
    intros s v r H m Hm.
    destruct (Cv' _ _ _ H) as [pre [cl [Hs _]]]. len Hs.
    destruct m as [|m]; [lia|].
    revert H. cbn [parse_value].
    destruct (skip_ws_split s) as [w Hw].
    destruct (skip_ws s) as [|c t]; [discriminate|]. len Hw.
    destruct (c =? 123)%N.
    { destruct (skip_ws_split t) as [w' Ht].
      destruct (skip_ws t) as [|c' r0]; [discriminate|]. len Ht.
      destruct (c' =? 125)%N; [trivial|].
      intros H. apply (IHm _ _ _ _ H). cbn [length]. lia. }
    destruct (c =? 91)%N; [|trivial].
    destruct (skip_ws_split t) as [w' Ht].
    destruct (skip_ws t) as [|c' r0]; [discriminate|]. len Ht.
    destruct (c' =? 93)%N; [trivial|].
    intros H. apply (IHe _ _ _ _ H). cbn [length]. lia.
  - (* parse_elements *)
    intros s acc v r H m Hm.
    destruct (Ce' _ _ _ _ H) as [pre Hs]. len Hs.
    destruct m as [|m]; [lia|].
    cbn [parse_elements] in H |- *.
    destruct (parse_value n s) as [[v0 r0]|] eqn:P; [|discriminate].
    destruct (Cv _ _ _ P) as [pre0 [c0 [Hs0 _]]]. len Hs0.
    destruct (skip_ws_split r0) as [w Hr0].
    destruct (skip_ws r0) as [|c r'] eqn:W; [discriminate|]. len Hr0.
    destruct (c =? 44)%N eqn:Ec.
    + destruct (Ce _ _ _ _ H) as [pre' Hr']. len Hr'.
      rewrite (IHv _ _ _ P m) by lia. rewrite W, Ec.
      apply (IHe _ _ _ _ H). lia.
    + destruct (c =? 93)%N eqn:Eb; [|discriminate].
      inversion H; subst.
      rewrite (IHv _ _ _ P m) by lia. rewrite W, Ec, Eb. reflexivity.
  - (* parse_members *)
    intros s acc v r H m Hm.
    destruct (Cm' _ _ _ _ H) as [pre Hs]. len Hs.
    destruct m as [|m]; [lia|].
    cbn [parse_members] in H |- *.
    destruct (skip_ws_split s) as [w Hw].
    destruct (skip_ws s) as [|q t]; [discriminate|]. len Hw.
    destruct (q =? 34)%N; [|discriminate].
    destruct (parse_string_body t []) as [[k r0]|] eqn:K; [|discriminate].
    destruct (parse_string_body_consumes _ _ _ _ _ (le_n _) K) as [pk Hk].
    len Hk.
    destruct (skip_ws_split r0) as [w0 Hr0].
    destruct (skip_ws r0) as [|colon r1]; [discriminate|]. len Hr0.
    destruct (colon =? 58)%N; [|discriminate].
    destruct (parse_value n r1) as [[v0 r2]|] eqn:P; [|discriminate].
    destruct (Cv _ _ _ P) as [pv [cv [Hv _]]]. len Hv.
    destruct (skip_ws_split r2) as [w2 Hr2].
    destruct (skip_ws r2) as [|c r3] eqn:W; [discriminate|]. len Hr2.
    destruct (c =? 44)%N eqn:Ec.
    + destruct (Cm _ _ _ _ H) as [pre' Hr']. len Hr'.
      rewrite (IHv _ _ _ P m) by lia. rewrite W, Ec.
      apply (IHm _ _ _ _ H). lia.
    + destruct (c =? 125)%N eqn:Eb; [|discriminate].
      inversion H; subst.
      rewrite (IHv _ _ _ P m) by lia. rewrite W, Ec, Eb. reflexivity.
Qed.

(** The fuel [JSON_parse] gives itself never falls short: a text that
    parses with some fuel parses, to the same value, with that fuel. *)
Lemma JSON_parse_fuel_enough (fuel : nat) (s : jsstring) (v : json) :
  JSON_parse_fuel fuel s = Some v -> JSON_parse s = Some v.
Proof.
  forget_environment.
  unfold JSON_parse, JSON_parse_fuel.
  destruct (parse_value fuel s) as [[v0 r]|] eqn:P; [|discriminate].
  rewrite (proj1 (parse_fuel_enough fuel) _ _ _ P (2 * length s + 2)%nat)
    by lia.
  trivial.
Qed.

Lemma In_occurs_after (x : N) (s : jsstring) :
  In x s -> exists pre, occurs_after [x] s pre.
Proof.
  intros H. destruct (in_split _ _ H) as [pre [post ->]].
  exists pre, post. reflexivity.
Qed.

(** C3 (amended).  [parseJSON] hands to [JSON.parse] the code units
    between two indices computed from the first opening and the last
    closing brace.
    - When the first opening brace precedes the last closing brace and
      the text from the one to the other, both included, is valid JSON,
      [parseJSON] returns the value parsed from exactly that text.
    - When the text holds no opening brace, [parseJSON] throws.
    - When it holds an opening brace but no closing one, [JSON.parse] is
      applied to what precedes the first opening brace: [parseJSON]
      throws only when that prefix is not valid JSON by itself. *)
Theorem parseJSON_first_to_last_brace (str : jsstring) :
  (forall i j v,
      indexOf str LBRACE = i -> lastIndexOf str RBRACE = j -> 0 <= i <= j ->
      JSON_parse (slice str i (j + 1)) = Some v ->
      parseJSON str = inl v)
  /\ (indexOf str LBRACE = -1 -> exists e, parseJSON str = inr e)
  /\ (0 <= indexOf str LBRACE -> lastIndexOf str RBRACE = -1 ->
      parseJSON str =
      match JSON_parse (firstn (Z.to_nat (indexOf str LBRACE)) str) with
      | Some v => inl v
      | None =>
          inr (JsSyntaxError (firstn (Z.to_nat (indexOf str LBRACE)) str))
      end).
Proof.
  repeat split.
  - intros i j v Hi Hj Hij Hv. unfold parseJSON. rewrite Hi, Hj.
    destruct (lastIndexOf_spec str RBRACE) as [[R _] | [pre [O [R _]]]];
      [lia|].
    apply occurs_after_length in O. simpl in O.
    rewrite substring_slice by lia. rewrite Hv. reflexivity.
  - intros Hi. unfold parseJSON. rewrite Hi.
    pose proof (indexOf_absent _ _ Hi) as Hno.
    destruct (lastIndexOf_spec str RBRACE) as [[R _] | [pre [O [R _]]]].
    + rewrite R. simpl Z.add.
      assert (E : substring str (-1) 0 = []).
      { unfold substring, clamp, slice.
        replace (Z.min (Z.max (-1) 0) (Z.of_nat (length str))) with 0 by lia.
        replace (Z.min (Z.max 0 0) (Z.of_nat (length str))) with 0 by lia.
        reflexivity. }
      rewrite E. eexists; reflexivity.
    + rewrite R. pose proof (occurs_after_length _ _ _ O) as L. simpl in L.
      assert (E : substring str (-1) (Z.of_nat (length pre) + 1)
                  = pre ++ [125%N]).
      { unfold substring, clamp.
        replace (Z.min (Z.max (-1) 0) (Z.of_nat (length str))) with 0 by lia.
        replace (Z.min (Z.max (Z.of_nat (length pre) + 1) 0)
                       (Z.of_nat (length str)))
          with (Z.of_nat (length pre) + 1) by lia.
        rewrite Z.min_l, Z.max_r by lia. unfold slice. simpl skipn.
        replace (Z.to_nat (Z.of_nat (length pre) + 1 - 0))
          with (length pre + 1)%nat by lia.
        destruct O as [post ->]. rewrite app_assoc.
        replace (length pre + 1)%nat with (length (pre ++ RBRACE))
          by (rewrite length_app; reflexivity).
        rewrite firstn_app, firstn_all, Nat.sub_diag. simpl.
        apply app_nil_r. }
      rewrite E.
      destruct (JSON_parse (pre ++ [125%N])) as [v|] eqn:P;
        [|eexists; reflexivity].
      exfalso. apply JSON_parse_closing_needs_opening in P.
      assert (Hin : In 123%N str).
      { destruct O as [post ->]. apply in_app_or in P.
        apply in_or_app. destruct P as [P | P]; [left; exact P|].
        right. apply in_or_app. left. exact P. }
      destruct (In_occurs_after _ _ Hin) as [p Hp]. exact (Hno p Hp).
  - intros Hi Hj. unfold parseJSON. rewrite Hj. simpl Z.add.
    destruct (indexOf_spec str LBRACE) as [[R _] | [pre [O [R _]]]]; [lia|].
    apply occurs_after_length in O.
    assert (E : substring str (indexOf str LBRACE) 0
                = firstn (Z.to_nat (indexOf str LBRACE)) str).
    { rewrite R. unfold substring, clamp, slice.
      replace (Z.min (Z.max 0 0) (Z.of_nat (length str))) with 0 by lia.
      replace (Z.min (Z.max (Z.of_nat (length pre)) 0)
                     (Z.of_nat (length str)))
        with (Z.of_nat (length pre)) by lia.
      rewrite Z.min_r, Z.max_l by lia. simpl skipn. f_equal. lia. }
    rewrite E. reflexivity.
Qed.

(* ================================================================ *)
(** ** Properties: [generateText] *)
(* ================================================================ *)

Lemma run_unfold {A : Type} (m : M A) (s : ContainerState)
  (outcomes : list BackendOutcome) :
  run m s outcomes =
  match run_sync m s with
  | (s', Finished r) => ([], (s', Finished r))
  | (s', Waiting req k) =>
      match outcomes with
      | [] => ([(s', req)], (s', Waiting req k))
      | o :: outcomes' =>
          let '(calls, final) := run (k o) s' outcomes' in
          ((s', req) :: calls, final)
      end
  end.
Proof. destruct outcomes; reflexivity. Qed.

Lemma run_Update {A : Type} (u : ContainerState -> ContainerState) (k : M A)
  (s : ContainerState) (outcomes : list BackendOutcome) :
  run (Update u k) s outcomes = run k (u s) outcomes.
Proof. rewrite !run_unfold. reflexivity. Qed.

(** After its [await], [generateText] returns or throws at once. *)
Lemma check_response_shape (outcome : BackendOutcome) :
  (exists r, check_response outcome = Ret r)
  \/ (exists e, check_response outcome = Throw e).
Proof.
  destruct outcome as [response | e]; simpl; [|right; eauto].
  destruct (truthy_opt (prompt_block_reason response)); [right; eauto|].
  destruct (candidates response) as [[|c rest]|]; try (right; eauto; fail).
  destruct (truthy_opt (finishReason c) && _); [|left; eauto].
  destruct (jsstring_eqb _ FinishReason_SAFETY); right; eauto.
Qed.

(** With a credential, [generateText] issues one backend call and hands
    what it settles with to the checks. *)
Lemma run_generateText (options : GenerateTextOptions) (s : ContainerState)
  (outcome : BackendOutcome) (verdict : Result jsstring) :
  truthy_opt GEMINI_API_KEY = true ->
  check_response outcome = lift verdict ->
  run (generateText options) s [outcome]
  = ([(s, build_request options)], (s, Finished verdict)).
Proof.
  intros K V. unfold generateText. rewrite K. simpl.
  rewrite V. destruct verdict; reflexivity.
Qed.

(** C2.  With a credential configured, [generateText] issues one backend
    call and checks what it answers in this order, failing at the first
    check that does not pass:
    1. a block reason is reported for the prompt: an error whose message
       includes that reason;
    2. the candidate list is missing or empty: the error [No candidates
       returned.];
    3. the first candidate has a finish reason that is not [STOP]: the
       error [Response blocked due to safety settings.] when it is
       [SAFETY], and [Stopped due to <reason>.] otherwise;
    4. otherwise the text of the response is returned.
    The four error messages are pairwise different. *)
Theorem generateText_checks_in_order (options : GenerateTextOptions)
  (response : GenerateContentResponse) (s : ContainerState) :
  truthy_opt GEMINI_API_KEY = true ->
  let settles_with verdict :=
    run (generateText options) s [Fulfilled response]
    = ([(s, build_request options)], (s, Finished verdict)) in
  let blocked r :=
    js "Content generation failed: Prompt blocked (reason: " ++ r ++ js ")" in
  let no_candidates :=
    js "Content generation failed: No candidates returned." in
  let safety :=
    js "Content generation failed: Response blocked due to safety settings."
  in
  let stopped r :=
    js "Content generation failed: Stopped due to " ++ r ++ js "." in
  (forall r, prompt_block_reason response = Some r -> r <> [] ->
             settles_with (inr (JsError (blocked r))))
  /\ (truthy_opt (prompt_block_reason response) = false ->
      candidates response = None \/ candidates response = Some [] ->
      settles_with (inr (JsError no_candidates)))
  /\ (forall c rest r,
        truthy_opt (prompt_block_reason response) = false ->
        candidates response = Some (c :: rest) ->
        finishReason c = Some r -> r <> [] -> r <> FinishReason_STOP ->
        (r = FinishReason_SAFETY -> settles_with (inr (JsError safety)))
        /\ (r <> FinishReason_SAFETY ->
            settles_with (inr (JsError (stopped r)))))
  /\ (forall c rest,
        truthy_opt (prompt_block_reason response) = false ->
        candidates response = Some (c :: rest) ->
        truthy_opt (finishReason c) = false
        \/ finishReason c = Some FinishReason_STOP ->
        settles_with (inl (text response)))
  /\ (forall r r',
        blocked r <> no_candidates /\ blocked r <> safety
        /\ blocked r <> stopped r' /\ no_candidates <> safety
        /\ no_candidates <> stopped r' /\ safety <> stopped r').
Proof.
  intros K settles_with blocked no_candidates safety stopped.
  subst settles_with. cbv beta.
  split; [|split; [|split; [|split]]].
  - intros r Hr Hne. apply run_generateText; [exact K|].
    simpl. rewrite Hr. destruct r; [contradiction|]. reflexivity.
  - intros Hb Hc. apply run_generateText; [exact K|].
    simpl. rewrite Hb. destruct Hc as [-> | ->]; reflexivity.
  - intros c rest r Hb Hc Hf Hne Hstop.
    assert (T : truthy r = true) by (destruct r; [contradiction|reflexivity]).
    split; intros Hs; (apply run_generateText; [exact K|]);
      simpl; rewrite Hb, Hc, Hf; simpl;
      rewrite T, (jsstring_eqb_neq _ _ Hstop); simpl.
    + subst r. rewrite jsstring_eqb_refl. reflexivity.
    + rewrite (jsstring_eqb_neq _ _ Hs). reflexivity.
  - intros c rest Hb Hc Hf. apply run_generateText; [exact K|].
    simpl. rewrite Hb, Hc. destruct Hf as [Hf | Hf].
    + rewrite Hf. reflexivity.
    + rewrite Hf. simpl. reflexivity.
  - intros r r'. subst blocked no_candidates safety stopped.
    repeat split; intros E; vm_compute in E; discriminate E.
Qed.

(* ================================================================ *)
(** ** Properties: the spec-save regeneration *)
(* ================================================================ *)

(** The state [handleSpecSave] has set when it calls the backend. *)
Lemma handleSpecSave_changed (cur : ContainerState) :
  trim (editedSpec cur) <> spec cur ->
  handleSpecSave cur =
  Update (setLoadingState loading_code)
   (Update (setError None)
    (Update (setSpec (trim (editedSpec cur)))
     (Update (setIsEditingSpec false)
      (Update (setActiveTabIndex 1)
       (try_catch
          (generatedCode <- generateCodeFromSpec (trim (editedSpec cur)) ;;
           call (setCode generatedCode) ;;
           call (setLoadingState ready) ;;
           Ret tt)
          (fun err =>
             call (setError (Some (error_message err))) ;;
             call (setLoadingState error_state) ;;
             Ret tt)))))).
Proof.
  intros H. unfold handleSpecSave.
  rewrite (jsstring_eqb_neq _ _ H). reflexivity.
Qed.

(** [generateCodeFromSpec] throws at once without a credential, and
    awaits one backend call with the spec as its only part otherwise. *)
Lemma generateCodeFromSpec_shape (t : jsstring) :
  (truthy_opt GEMINI_API_KEY = false
   /\ generateCodeFromSpec t
      = Throw (JsError (js "Gemini API key is missing or empty")))
  \/ (truthy_opt GEMINI_API_KEY = true
      /\ generateCodeFromSpec t
         = Await {| model := js "gemini-2.5-pro-preview-03-25";
                    contents := [ {| role := js "user";
                                     parts := [TextPart t] |} ];
                    config_temperature := (75 # 100)%Q |}
                 (fun o =>
                    codeResponse <- check_response o ;;
                    Ret (parseHTML codeResponse CODE_REGION_OPENER
                                   CODE_REGION_CLOSER))).
Proof.
  unfold generateCodeFromSpec, generateText.
  destruct (truthy_opt GEMINI_API_KEY); [right | left]; split; reflexivity.
Qed.

(** C6.  Saving an edited spec whose trimmed text is the stored spec
    changes nothing in the pipeline: no backend call is issued, and the
    loading state, the spec, the code and the error are what they were;
    the editor is closed and its text reset. *)
Theorem handleSpecSave_same_spec_is_noop (cur : ContainerState)
  (outcomes : list BackendOutcome) :
  trim (editedSpec cur) = spec cur ->
  exists s',
    run (handleSpecSave cur) cur outcomes = ([], (s', Finished (inl tt)))
    /\ loadingState s' = loadingState cur
    /\ spec s' = spec cur
    /\ code s' = code cur
    /\ error s' = error cur
    /\ isEditingSpec s' = false
    /\ editedSpec s' = [].
Proof.
  intros H. exists (setEditedSpec [] (setIsEditingSpec false cur)).
  unfold handleSpecSave. rewrite H, jsstring_eqb_refl.
  rewrite run_unfold. simpl. repeat split; reflexivity.
Qed.

(** C7.  When the trimmed edited text differs from the stored spec,
    [handleSpecSave] stores the trimmed text as the spec (and sets
    [loading-code]) before it calls the backend with that text as the
    prompt; and when the generation then fails with [e], the state
    becomes [error] with the message of [e] while the spec still is the
    trimmed edited text. *)
Theorem handleSpecSave_keeps_edited_spec (cur : ContainerState)
  (outcomes : list BackendOutcome) :
  trim (editedSpec cur) <> spec cur ->
  (forall at_call req,
      In (at_call, req) (fst (run (handleSpecSave cur) cur outcomes)) ->
      spec at_call = trim (editedSpec cur)
      /\ loadingState at_call = loading_code
      /\ model req = js "gemini-2.5-pro-preview-03-25"
      /\ contents req
         = [ {| role := js "user";
                parts := [TextPart (trim (editedSpec cur))] |} ])
  /\ (forall e s0,
        snd (snd (run (generateCodeFromSpec (trim (editedSpec cur))) s0
                      outcomes))
        = Finished (inr e) ->
        exists s',
          snd (run (handleSpecSave cur) cur outcomes)
          = (s', Finished (inl tt))
          /\ loadingState s' = error_state
          /\ error s' = Some (error_message e)
          /\ spec s' = trim (editedSpec cur)).
Proof.
  forget_environment.
  intros H. rewrite (handleSpecSave_changed cur H).
  rewrite !run_Update.
  destruct (generateCodeFromSpec_shape (trim (editedSpec cur)))
    as [[K E] | [K E]]; rewrite E; clear E.
  - split.
    + rewrite run_unfold. simpl. tauto.
    + intros e s0. rewrite !run_unfold. simpl. intros F; inversion F; subst.
      eexists; split; [reflexivity|]. repeat split; reflexivity.
  - destruct outcomes as [|o rest].
    + split.
      * simpl. intros at_call req [F | []]. inversion F; subst.
        repeat split; reflexivity.
      * intros e s0 F. simpl in F. discriminate F.
    + destruct (check_response_shape o) as [[r R] | [e' R]];
        (split;
         [ rewrite run_unfold; simpl; rewrite R; simpl;
           rewrite !run_unfold; simpl;
           intros at_call req [F | []]; inversion F; subst;
           repeat split; reflexivity
         | intros e s0; rewrite !run_unfold; simpl; rewrite R; simpl;
           rewrite ?run_unfold; simpl; intros F; inversion F; subst;
           (eexists; split; [reflexivity|]; repeat split; reflexivity) ]).
Qed.

(** C10.  The change check compares the trimmed edit with the stored
    spec as it is.  When the stored spec begins or ends with white
    space, an edit that equals it up to surrounding white space is a
    change: with a credential configured, [handleSpecSave] stores the
    trimmed text, sets [loading-code] and awaits a stage-two call whose
    prompt is the trimmed text. *)
Theorem handleSpecSave_untrimmed_stored_spec (cur : ContainerState) :
  (exists c t, is_white_space c = true
               /\ (spec cur = c :: t \/ spec cur = t ++ [c])) ->
  trim (editedSpec cur) = trim (spec cur) ->
  truthy_opt GEMINI_API_KEY = true ->
  jsstring_eqb (trim (editedSpec cur)) (spec cur) = false
  /\ exists s' req k,
       run_sync (handleSpecSave cur) cur = (s', Waiting req k)
       /\ spec s' = trim (editedSpec cur)
       /\ loadingState s' = loading_code
       /\ model req = js "gemini-2.5-pro-preview-03-25"
       /\ contents req
          = [ {| role := js "user";
                 parts := [TextPart (trim (editedSpec cur))] |} ].
Proof.
  intros [c [t [W Hs]]] _ K.
  assert (N : trim (editedSpec cur) <> spec cur).
  { intros E. destruct Hs as [Hs | Hs]; rewrite Hs in E.
    - apply trim_head in E. congruence.
    - apply trim_last in E. congruence. }
  split; [apply jsstring_eqb_neq, N|].
  rewrite (handleSpecSave_changed cur N).
  destruct (generateCodeFromSpec_shape (trim (editedSpec cur)))
    as [[K' _] | [_ E]]; [congruence|].
  rewrite E. simpl.
  do 3 eexists. split; [reflexivity|]. repeat split; reflexivity.
Qed.

(* ================================================================ *)
(** ** Properties: the run started on mount *)
(* ================================================================ *)

(** Of two prefixes of one string, the shorter is a prefix of the longer. *)
Lemma prefix_of_longer (a b x y : jsstring) :
  a ++ x = b ++ y -> (length a <= length b)%nat -> exists m, b = a ++ m.
Proof.
  revert b; induction a as [|c a IH]; intros b H L.
  - exists b; reflexivity.
  - destruct b as [|d b]; [simpl in L; lia|].
    simpl in H, L. inversion H; subst.
    destruct (IH b H2) as [m ->]; [lia|]. exists m; reflexivity.
Qed.

(** When the marker is followed, anywhere later, by the closer,
    [parseHTML] returns the text from the first marker up to where the
    last closer starts. *)
Lemma parseHTML_between (str opener closer pre body post : jsstring) :
  str = pre ++ DOCTYPE ++ body ++ closer ++ post ->
  parseHTML str opener closer
  = slice str (indexOf str DOCTYPE) (lastIndexOf str closer)
  /\ exists before after rest,
       str = before ++ parseHTML str opener closer ++ closer ++ after
       /\ parseHTML str opener closer = DOCTYPE ++ rest
       /\ indexOf str DOCTYPE = Z.of_nat (length before)
       /\ lastIndexOf str closer
          = Z.of_nat (length (before ++ parseHTML str opener closer)).
Proof.
  intros Hs.
  assert (O1 : occurs_after DOCTYPE str pre)
    by (exists (body ++ closer ++ post); exact Hs).
  assert (O2 : occurs_after closer str (pre ++ DOCTYPE ++ body)).
  { exists post. rewrite Hs, <- !app_assoc. reflexivity. }
  destruct (indexOf_spec str DOCTYPE) as [[_ N] | [p1 [[q1 E1] [R1 Min]]]];
    [destruct (N _ O1)|].
  destruct (lastIndexOf_spec str closer)
    as [[_ N] | [p2 [[q2 E2] [R2 Max]]]]; [destruct (N _ O2)|].
  specialize (Min _ O1). specialize (Max _ O2).
  rewrite !length_app in Max.
  assert (L2 : (length p2 <= length str)%nat)
    by (rewrite E2, length_app; lia).
  destruct (prefix_of_longer p1 p2 (DOCTYPE ++ q1) (closer ++ q2))
    as [mid Hmid]; [congruence | lia |].
  assert (Hcode : parseHTML str opener closer = mid).
  { unfold parseHTML. rewrite R1, R2, substring_slice by lia.
    rewrite E2, Hmid, <- app_assoc.
    replace (Z.of_nat (length (p1 ++ mid)))
      with (Z.of_nat (length p1 + length mid))
      by (rewrite length_app; reflexivity).
    apply slice_app. }
  split.
  - unfold parseHTML at 1. rewrite R1, R2. apply substring_slice; lia.
  - assert (Em : DOCTYPE ++ q1 = mid ++ closer ++ q2).
    { apply (app_inv_head p1). rewrite <- E1, E2, Hmid, <- app_assoc.
      reflexivity. }
    destruct (prefix_of_longer DOCTYPE mid q1 (closer ++ q2))
      as [rest Hrest]; [exact Em | |].
    { rewrite Hmid, length_app in Max. lia. }
    exists p1, q2, rest. rewrite Hcode.
    repeat split; [| exact Hrest | exact R1 | rewrite R2, Hmid; reflexivity].
    rewrite E2, Hmid, <- app_assoc. reflexivity.
Qed.

(** C1.  A run that is not pre-seeded, whose stage-one call returns a
    text with the JSON payload [{ spec: S1 }] and whose stage-two call
    returns a text where [<!DOCTYPE html>] and some body are followed by
    the closing delimiter, issues two backend calls and ends in [ready];
    the spec is [S1] with the addendum appended, and the code is the
    text from the first [<!DOCTYPE html>] up to where the last closing
    delimiter starts. *)
Theorem fresh_run_reaches_ready (props : ContentContainerProps)
  (o1 o2 : BackendOutcome) (r1 r2 S1 pre body post : jsstring) :
  truthy_opt (preSeededSpec props) && truthy_opt (preSeededCode props)
  = false ->
  truthy_opt GEMINI_API_KEY = true ->
  check_response o1 = Ret r1 ->
  parseJSON r1 = inl (JObject [(js "spec", JString S1)]) ->
  check_response o2 = Ret r2 ->
  r2 = pre ++ DOCTYPE ++ body ++ CODE_REGION_CLOSER ++ post ->
  exists calls s',
    run (generateContent props) (initial_state props) [o1; o2]
    = (calls, (s', Finished (inl tt)))
    /\ length calls = 2%nat
    /\ loadingState s' = ready
    /\ error s' = None
    /\ spec s' = S1 ++ SPEC_ADDENDUM
    /\ code s'
       = slice r2 (indexOf r2 DOCTYPE) (lastIndexOf r2 CODE_REGION_CLOSER)
    /\ exists before after rest,
         r2 = before ++ code s' ++ CODE_REGION_CLOSER ++ after
         /\ code s' = DOCTYPE ++ rest
         /\ indexOf r2 DOCTYPE = Z.of_nat (length before)
         /\ lastIndexOf r2 CODE_REGION_CLOSER
            = Z.of_nat (length (before ++ code s')).
Proof.
  intros Hfresh K R1 J R2 Hr2.
  destruct (parseHTML_between r2 CODE_REGION_OPENER CODE_REGION_CLOSER
                              pre body post Hr2) as [Hslice Hparts].
  unfold generateContent. rewrite Hfresh.
  unfold generateSpecFromVideo, generateCodeFromSpec, generateText.
  rewrite K. simpl.
  rewrite ?run_unfold. simpl. rewrite R1. simpl. rewrite J. simpl.
  rewrite ?run_unfold. simpl. rewrite R2. simpl.
  rewrite ?run_unfold. simpl.
  do 2 eexists. split; [reflexivity|]. simpl.
  repeat (split; [reflexivity|]).
  split; [exact Hslice | exact Hparts].
Qed.

(** C8.  Pre-seeding needs both values.  When the pre-seeded spec and
    the pre-seeded code are not both non-empty strings (in particular
    when exactly one of them is empty or absent), the component starts
    in [loading-spec] and its run is, call for call and state for state,
    the run of a component given the video reference alone.  With a
    credential configured it first clears the spec and the code and
    awaits the stage-one call on the video reference; and when that call
    returns a text a spec can be read from, and the stage-two call
    returns a text, the run has made both calls, the second with the spec
    of stage one as its only part, and ends in [ready] with that spec and
    with the code extracted from the answer of stage two: nothing of the
    provided value is left. *)
Theorem partial_preseed_is_ignored (props : ContentContainerProps)
  (outcomes : list BackendOutcome) :
  truthy_opt (preSeededSpec props) && truthy_opt (preSeededCode props)
  = false ->
  let fresh :=
    {| contentBasis := contentBasis props;
       preSeededSpec := None;
       preSeededCode := None |} in
  let stage_one_parts :=
    TextPart SPEC_FROM_VIDEO_PROMPT
    :: (if truthy (contentBasis props)
        then [FileDataPart (js "video/mp4") (contentBasis props)]
        else []) in
  loadingState (initial_state props) = loading_spec
  /\ run (generateContent props) (initial_state props) outcomes
     = run (generateContent fresh) (initial_state fresh) outcomes
  /\ (truthy_opt GEMINI_API_KEY = true ->
      exists s1 req k,
        run_sync (generateContent props) (initial_state props)
        = (s1, Waiting req k)
        /\ spec s1 = [] /\ code s1 = []
        /\ loadingState s1 = loading_spec /\ error s1 = None
        /\ model req = js "gemini-2.0-flash"
        /\ contents req
           = [ {| role := js "user"; parts := stage_one_parts |} ])
  /\ (forall o1 o2 rest r1 spec1 r2,
        truthy_opt GEMINI_API_KEY = true ->
        check_response o1 = Ret r1 ->
        spec_of_response r1 = inl spec1 ->
        check_response o2 = Ret r2 ->
        exists s1 req1 s2 req2 s',
          run (generateContent props) (initial_state props)
              (o1 :: o2 :: rest)
          = ([(s1, req1); (s2, req2)], (s', Finished (inl tt)))
          /\ spec s1 = [] /\ code s1 = []
          /\ loadingState s1 = loading_spec
          /\ model req1 = js "gemini-2.0-flash"
          /\ contents req1
             = [ {| role := js "user"; parts := stage_one_parts |} ]
          /\ spec s2 = spec1 /\ code s2 = []
          /\ loadingState s2 = loading_code
          /\ model req2 = js "gemini-2.5-pro-preview-03-25"
          /\ contents req2
             = [ {| role := js "user"; parts := [TextPart spec1] |} ]
          /\ loadingState s' = ready
          /\ error s' = None
          /\ spec s' = spec1
          /\ code s' = parseHTML r2 CODE_REGION_OPENER CODE_REGION_CLOSER).
Proof.
  intros H fresh stage_one_parts. subst stage_one_parts.
  split; [|split; [|split]].
  - unfold initial_state. simpl. rewrite H. reflexivity.
  - unfold generateContent. rewrite H. subst fresh. simpl.
    rewrite !run_Update. reflexivity.
  - intros K. unfold generateContent. rewrite H.
    unfold generateSpecFromVideo, generateText. rewrite K. simpl.
    do 3 eexists. split; [reflexivity|]. repeat split; reflexivity.
  - intros o1 o2 rest r1 spec1 r2 K R1 P R2.
    unfold generateContent. rewrite H.
    unfold generateSpecFromVideo, generateCodeFromSpec, generateText.
    rewrite K. simpl.
    rewrite ?run_unfold. simpl. rewrite R1. simpl.
    unfold spec_of_response in P.
    destruct (parseJSON r1) as [v | e1]; [|discriminate P]. simpl.
    destruct (read_spec v) as [x | e2]; [|discriminate P]. simpl.
    rewrite P. simpl. rewrite ?run_unfold. simpl. rewrite R2. simpl.
    rewrite ?run_unfold. simpl.
    do 5 eexists. split; [reflexivity|]. repeat split; reflexivity.
Qed.

(* ================================================================ *)
(** ** Properties: runs and remounts *)
(* ================================================================ *)

Lemma tasks_of_owner (who : nat) (w : Suspended unit) (t : Task) :
  In t (tasks_of who w) -> owner t = who.
Proof.
  forget_environment.
  destruct w; simpl; [tauto|]. intros [<- | []]. reflexivity.
Qed.

Lemma option_eqb_eq (a b : option jsstring) :
  option_eqb a b = true -> a = b.
Proof.
  destruct a, b; simpl; try discriminate; [|reflexivity].
  intros H. apply jsstring_eqb_eq in H. congruence.
Qed.

Lemma same_deps_eq (p q : ContentContainerProps) :
  same_deps p q = true -> p = q.
Proof.
  destruct p, q. unfold same_deps. simpl.
  rewrite !andb_true_iff. intros [[A B] C].
  apply jsstring_eqb_eq in A. apply option_eqb_eq in B, C. congruence.
Qed.

Lemma same_deps_refl (p : ContentContainerProps) : same_deps p p = true.
Proof.
  destruct p as [b s c]. unfold same_deps. simpl.
  rewrite jsstring_eqb_refl.
  destruct s, c; simpl; rewrite ?jsstring_eqb_refl; reflexivity.
Qed.

(** What a render leaves: nothing mounted without a video URL; otherwise
    the old instance when its key is the run counter, and an instance
    made now when it is not (or when nothing was mounted). *)
Lemma render_spec (a : App.State) (old : option Instance)
  (queue : list Task) (fresh : nat) :
  (truthy (App.videoUrl a) = false
   /\ render a old queue fresh
      = {| appState := a; mounted := None; pending := queue;
           next_iid := fresh |})
  \/ (truthy (App.videoUrl a) = true
      /\ exists inst started fresh',
           render a old queue fresh
           = {| appState := App.handleContentLoadingStateChange
                         (isLoading (state inst)) a;
                mounted := Some inst;
                pending := queue ++ started;
                next_iid := fresh' |}
           /\ key inst = App.reloadCounter a
           /\ props inst = App.container_props a
           /\ (forall t, In t started -> owner t = iid inst)
           /\ ((exists i, old = Some i /\ App.reloadCounter a = key i
                          /\ iid inst = iid i /\ fresh' = fresh)
               \/ ((old = None
                    \/ exists i, old = Some i
                                 /\ App.reloadCounter a <> key i)
                   /\ iid inst = fresh /\ fresh' = S fresh))).
Proof.
  unfold render. destruct (truthy (App.videoUrl a)); simpl;
    [right; split; [reflexivity|] | left; split; reflexivity].
  assert (Hmount : forall who,
    exists inst started,
      mount a who = (inst, started)
      /\ key inst = App.reloadCounter a
      /\ props inst = App.container_props a
      /\ (forall t, In t started -> owner t = iid inst)
      /\ iid inst = who).
  { intros who. unfold mount.
    destruct (run_sync _ _) as [s w]. do 2 eexists.
    split; [reflexivity|]. simpl.
    repeat split; try reflexivity. apply tasks_of_owner. }
  destruct old as [i|].
  - destruct (App.reloadCounter a =? key i) eqn:Ek.
    + apply Z.eqb_eq in Ek.
      destruct (same_deps (props i) (App.container_props a)) eqn:Ed.
      * exists i, [], fresh. apply same_deps_eq in Ed.
        repeat split; auto; [simpl; tauto|].
        left; exists i; auto.
      * destruct (run_sync _ _) as [s w]. do 3 eexists.
        split; [reflexivity|]. simpl.
        repeat split; auto; [apply tasks_of_owner|].
        left; exists i; auto.
    + apply Z.eqb_neq in Ek.
      destruct (Hmount fresh) as [inst [started [E [A [B [C D]]]]]].
      rewrite E. exists inst, started, (S fresh).
      repeat split; auto. right. split; [right; exists i; auto | auto].
  - destruct (Hmount fresh) as [inst [started [E [A [B [C D]]]]]].
    rewrite E. exists inst, started, (S fresh).
    repeat split; auto.
Qed.

Lemma container_props_loading (b : bool) (a : App.State) :
  App.container_props (App.handleContentLoadingStateChange b a)
  = App.container_props a.
Proof. reflexivity. Qed.

Lemma render_invariant (a : App.State) (old : option Instance)
  (queue : list Task) (fresh : nat) :
  (forall i, old = Some i -> (iid i < fresh)%nat) ->
  (forall t, In t queue -> (owner t < fresh)%nat) ->
  session_invariant (render a old queue fresh).
Proof.
  intros Hold Hq.
  destruct (render_spec a old queue fresh)
    as [[T ->] | [T [inst [started [fresh' [-> [K [P [O C]]]]]]]]];
    unfold session_invariant; simpl.
  - repeat split; try discriminate; auto.
  - assert (Hi : (iid inst < fresh')%nat /\ (fresh <= fresh')%nat).
    { destruct C as [[i [E [_ [-> ->]]]] | [_ [-> ->]]];
        [split; [apply Hold, E | lia] | lia]. }
    split; [discriminate|]. split.
    + intros i E; inversion E; subst i. repeat split; tauto.
    + intros t Ht. apply in_app_or in Ht. destruct Ht as [Ht | Ht].
      * specialize (Hq t Ht). lia.
      * rewrite (O t Ht). tauto.
Qed.

Lemma render_instances_from (b : nat) (a : App.State)
  (old : option Instance) (queue : list Task) (fresh : nat) :
  (b <= fresh)%nat ->
  (forall i, old = Some i -> (b <= iid i)%nat) ->
  instances_from b (render a old queue fresh).
Proof.
  intros Hb Hold.
  destruct (render_spec a old queue fresh)
    as [[T ->] | [T [inst [started [fresh' [-> [K [P [O C]]]]]]]]];
    unfold instances_from; simpl.
  - split; [exact Hb | discriminate].
  - destruct C as [[i [E [_ [Hi ->]]]] | [_ [Hi ->]]].
    + split; [exact Hb|]. intros j Ej; inversion Ej; subst j.
      rewrite Hi. apply Hold, E.
    + split; [lia|]. intros j Ej; inversion Ej; subst j. lia.
Qed.

Lemma render_counter (a : App.State) (old : option Instance)
  (queue : list Task) (fresh : nat) :
  App.reloadCounter (appState (render a old queue fresh)) = App.reloadCounter a.
Proof.
  destruct (render_spec a old queue fresh)
    as [[T ->] | [T [inst [started [fresh' [-> _]]]]]]; reflexivity.
Qed.

(** A render with a new run counter mounts an instance made now. *)
Lemma render_new_key (a : App.State) (old : option Instance)
  (queue : list Task) (fresh : nat) :
  (forall i, old = Some i -> key i <> App.reloadCounter a) ->
  instances_from fresh (render a old queue fresh).
Proof.
  intros Hk.
  destruct (render_spec a old queue fresh)
    as [[T ->] | [T [inst [started [fresh' [-> [K [P [O C]]]]]]]]];
    unfold instances_from; simpl.
  - split; [lia | discriminate].
  - destruct C as [[i [E [Ek _]]] | [_ [Hi ->]]].
    + destruct (Hk i E). symmetry; exact Ek.
    + split; [lia|]. intros j Ej; inversion Ej; subst j. lia.
Qed.

Lemma in_skipped (n : nat) (queue : list Task) (t : Task) :
  In t (firstn n queue ++ skipn (S n) queue) -> In t queue.
Proof.
  intros H. apply in_app_or in H. destruct H as [H | H].
  - rewrite <- (firstn_skipn n queue). apply in_or_app; left; exact H.
  - rewrite <- (firstn_skipn (S n) queue). apply in_or_app; right; exact H.
Qed.

Lemma in_component_invariant (h : ContainerState -> M unit) (sys : System) :
  session_invariant sys -> session_invariant (in_component h sys).
Proof.
  intros Inv. unfold in_component.
  destruct (mounted sys) as [i|] eqn:Em; [|exact Inv].
  destruct Inv as [_ [Hm Hp]]. destruct (Hm i ltac:(first [exact Em | reflexivity])) as [_ [_ [_ [_ Hi]]]].
  destruct (run_sync _ _) as [s w]. apply render_invariant.
  - intros j Ej; inversion Ej; subst j. exact Hi.
  - intros t Ht. apply in_app_or in Ht. destruct Ht as [Ht | Ht];
      [apply Hp, Ht | rewrite (tasks_of_owner _ _ _ Ht); exact Hi].
Qed.

Lemma settle_invariant (n : nat) (o : BackendOutcome) (sys : System) :
  session_invariant sys -> session_invariant (settle n o sys).
Proof.
  intros Inv. unfold settle.
  destruct (nth_error (pending sys) n) as [t|] eqn:En; [|exact Inv].
  destruct Inv as [_ [Hm Hp]].
  assert (Ht : (owner t < next_iid sys)%nat)
    by (apply Hp, (nth_error_In _ _ En)).
  assert (Hq : forall w u,
    In u ((firstn n (pending sys) ++ skipn (S n) (pending sys))
            ++ tasks_of (owner t) w) -> (owner u < next_iid sys)%nat).
  { intros w u Hu. apply in_app_or in Hu. destruct Hu as [Hu | Hu];
      [apply Hp, (in_skipped _ _ _ Hu)
      | rewrite (tasks_of_owner _ _ _ Hu); exact Ht]. }
  destruct (mounted sys) as [i|] eqn:Em.
  - destruct (Hm i ltac:(first [exact Em | reflexivity])) as [_ [_ [_ [_ Hi]]]].
    destruct (Nat.eqb (owner t) (iid i)).
    + destruct (run_sync _ _) as [s w]. apply render_invariant; [|apply Hq].
      intros j Ej; inversion Ej; subst j. exact Hi.
    + apply render_invariant; [|apply Hq].
      intros j Ej; inversion Ej; subst j. exact Hi.
  - apply render_invariant; [discriminate | apply Hq].
Qed.

Lemma step_invariant (sys : System) (e : Event) :
  session_invariant sys -> session_invariant (step sys e).
Proof.
  intros Inv.
  destruct e; simpl;
    try (apply in_component_invariant, Inv);
    try (apply settle_invariant, Inv);
    destruct Inv as [_ [Hm Hp]];
    (apply render_invariant;
     [intros i Ei; apply (Hm i Ei) | exact Hp]).
Qed.

Lemma in_component_instances_from (b : nat)
  (h : ContainerState -> M unit) (sys : System) :
  instances_from b sys -> instances_from b (in_component h sys).
Proof.
  intros [Hb Hm]. unfold in_component.
  destruct (mounted sys) as [i|] eqn:Em; [|split; [exact Hb|]].
  - destruct (run_sync _ _) as [s w].
    apply render_instances_from; [exact Hb|].
    intros j Ej; inversion Ej; subst j. apply (Hm i ltac:(first [exact Em | reflexivity])).
  - rewrite Em. discriminate.
Qed.

Lemma settle_instances_from (b n : nat) (o : BackendOutcome) (sys : System) :
  instances_from b sys -> instances_from b (settle n o sys).
Proof.
  intros [Hb Hm]. unfold settle.
  destruct (nth_error (pending sys) n) as [t|]; [|split; assumption].
  destruct (mounted sys) as [i|] eqn:Em.
  - destruct (Nat.eqb (owner t) (iid i)).
    + destruct (run_sync _ _) as [s w].
      apply render_instances_from; [exact Hb|].
      intros j Ej; inversion Ej; subst j. apply (Hm i ltac:(first [exact Em | reflexivity])).
    + apply render_instances_from; [exact Hb | exact Hm].
  - apply render_instances_from; [exact Hb | discriminate].
Qed.

Lemma step_instances_from (b : nat) (sys : System) (e : Event) :
  instances_from b sys -> instances_from b (step sys e).
Proof.
  intros J.
  destruct e; simpl;
    try (apply in_component_instances_from, J);
    try (apply settle_instances_from, J);
    destruct J as [Hb Hm];
    (apply render_instances_from; [exact Hb | exact Hm]).
Qed.

Lemma exec_invariant (events : list Event) :
  forall sys, session_invariant sys -> session_invariant (exec sys events).
Proof.
  induction events as [|e events IH]; intros sys Inv; [exact Inv|].
  apply IH, step_invariant, Inv.
Qed.

Lemma exec_instances_from (b : nat) (events : list Event) :
  forall sys, instances_from b sys -> instances_from b (exec sys events).
Proof.
  induction events as [|e events IH]; intros sys J; [exact J|].
  apply IH, step_instances_from, J.
Qed.

Lemma initial_invariant : session_invariant initial_system.
Proof.
  forget_environment.
  unfold session_invariant. simpl.
  repeat split; try discriminate; tauto.
Qed.

Lemma in_component_counter (h : ContainerState -> M unit) (sys : System) :
  App.reloadCounter (appState (in_component h sys)) = App.reloadCounter (appState sys).
Proof.
  unfold in_component. destruct (mounted sys); [|reflexivity].
  destruct (run_sync _ _). apply render_counter.
Qed.

Lemma settle_counter (n : nat) (o : BackendOutcome) (sys : System) :
  App.reloadCounter (appState (settle n o sys)) = App.reloadCounter (appState sys).
Proof.
  unfold settle. destruct (nth_error _ _); [|reflexivity].
  destruct (mounted sys) as [i|]; [|apply render_counter].
  destruct (Nat.eqb _ _); [|apply render_counter].
  destruct (run_sync _ _). apply render_counter.
Qed.

(** An event that changes the run counter leaves no instance mounted
    that was made before it. *)
Lemma new_run_unmounts (sys : System) (e : Event) :
  session_invariant sys ->
  App.reloadCounter (appState (step sys e)) <> App.reloadCounter (appState sys) ->
  instances_from (next_iid sys) (step sys e).
Proof.
  intros [_ [Hm _]] Hc.
  destruct e; cbn [step] in Hc |- *;
    try (rewrite in_component_counter in Hc; contradiction);
    try (rewrite settle_counter in Hc; contradiction);
    rewrite render_counter in Hc;
    (apply render_new_key; intros i Ei;
     destruct (Hm i Ei) as [_ [-> _]]; congruence).
Qed.

(** A call that settles for an instance other than the mounted one
    changes neither the mounted instance nor the state of [App]. *)
Lemma settle_stale (n : nat) (o : BackendOutcome) (sys : System) (t : Task) :
  session_invariant sys ->
  nth_error (pending sys) n = Some t ->
  (forall i, mounted sys = Some i -> owner t <> iid i) ->
  mounted (settle n o sys) = mounted sys /\ appState (settle n o sys) = appState sys.
Proof.
  intros [Hn [Hm _]] En Ho. unfold settle. rewrite En.
  destruct (mounted sys) as [i|] eqn:Em.
  - destruct (Nat.eqb (owner t) (iid i)) eqn:Eo;
      [apply Nat.eqb_eq in Eo; destruct (Ho i ltac:(first [exact Em | reflexivity]) Eo)|].
    destruct (Hm i ltac:(first [exact Em | reflexivity])) as [T [K [P [L _]]]].
    unfold render. rewrite T. simpl.
    rewrite K, Z.eqb_refl, P, same_deps_refl. simpl.
    split; [congruence|].
    rewrite <- L. destruct (appState sys); reflexivity.
  - unfold render. rewrite (Hn ltac:(first [exact Em | reflexivity])). simpl. split; reflexivity.
Qed.

(** Every event that assigns a content basis adds one to the run
    counter: [handleExampleSelect] and [proceedWithVideo] both do. *)
Lemma reassignment_adds_one (sys : System) (e : Event) :
  reassigns_basis sys e ->
  App.reloadCounter (appState (step sys e))
  = App.reloadCounter (appState sys) + 1.
Proof.
  destruct e; cbn [reassigns_basis step]; try contradiction;
    intros H; rewrite render_counter.
  - reflexivity.
  - destruct H as [Ht [Hv Hp]]. unfold App.handleSubmit.
    rewrite Ht, Hv. simpl.
    destruct Hp as [-> | Hp]; [reflexivity | discriminate Hp].
  - subst isValid. reflexivity.
Qed.

(** C4.  Let a backend call of a run be pending ([t], in [sys1]) when an
    event reassigns the content basis: an example is selected, or a
    submitted URL reaches [proceedWithVideo].  That event adds one to the
    run counter, and the component it mounts is a new instance whose key
    is the new counter.  Whatever happens next, when a call of the old run
    settles later (the pending one or one that run issued afterwards),
    neither the mounted component, with its spec, code and loading
    state, nor the state of [App] changes.  And a settling call that does
    change the mounted component belongs to that component, whose key is
    the current run counter and which was made after the old run. *)
Theorem stale_run_is_never_committed
  (events1 : list Event) (e : Event) (events2 : list Event)
  (t t' : Task) (n : nat) (o : BackendOutcome) :
  let sys1 := exec initial_system events1 in
  let sys2 := exec (step sys1 e) events2 in
  In t (pending sys1) ->
  reassigns_basis sys1 e ->
  nth_error (pending sys2) n = Some t' ->
  owner t' = owner t ->
  (mounted (step sys2 (Settle n o)) = mounted sys2
   /\ appState (step sys2 (Settle n o)) = appState sys2)
  /\ (forall n' o',
        mounted (step sys2 (Settle n' o')) <> mounted sys2 ->
        exists u i,
          nth_error (pending sys2) n' = Some u
          /\ mounted sys2 = Some i
          /\ owner u = iid i
          /\ key i = App.reloadCounter (appState sys2)
          /\ (owner t < owner u)%nat)
  /\ App.reloadCounter (appState (step sys1 e))
     = App.reloadCounter (appState sys1) + 1
  /\ (forall i, mounted (step sys1 e) = Some i ->
                (owner t < iid i)%nat
                /\ key i = App.reloadCounter (appState sys1) + 1).
Proof.
  intros sys1 sys2 Ht Hre En Eo.
  pose proof (reassignment_adds_one sys1 e Hre) as Hbump.
  assert (Hc : App.reloadCounter (appState (step sys1 e))
               <> App.reloadCounter (appState sys1)) by lia.
  assert (Inv1 : session_invariant sys1)
    by (apply exec_invariant, initial_invariant).
  assert (Inv1' : session_invariant (step sys1 e))
    by (apply step_invariant, Inv1).
  assert (Inv2 : session_invariant sys2)
    by (apply exec_invariant, Inv1').
  assert (J1 : instances_from (next_iid sys1) (step sys1 e))
    by (apply new_run_unmounts; assumption).
  assert (J : instances_from (next_iid sys1) sys2)
    by (apply exec_instances_from, J1).
  assert (Hold : (owner t < next_iid sys1)%nat)
    by (destruct Inv1 as [_ [_ Hp]]; apply Hp, Ht).
  destruct J as [_ Jm]. split; [|split; [|split]].
  - simpl. apply (settle_stale n o sys2 t' Inv2 En).
    intros i Ei. specialize (Jm i Ei). lia.
  - intros n' o' Hch. simpl in Hch.
    destruct (nth_error (pending sys2) n') as [u|] eqn:En';
      [|unfold settle in Hch; rewrite En' in Hch; contradiction].
    destruct (mounted sys2) as [i|] eqn:Em.
    + destruct (Nat.eq_dec (owner u) (iid i)) as [E | NE].
      * exists u, i. destruct Inv2 as [_ [Hm _]].
        destruct (Hm i ltac:(first [exact Em | reflexivity])) as [_ [K _]].
        specialize (Jm i ltac:(first [exact Em | reflexivity])).
        repeat split; auto. lia.
      * exfalso. apply Hch. rewrite <- Em.
        apply (settle_stale n' o' sys2 u Inv2 En').
        intros j Ej. rewrite Em in Ej. inversion Ej; subst j. exact NE.
    + exfalso. apply Hch. rewrite <- ?Em.
      apply (settle_stale n' o' sys2 u Inv2 En').
      intros j Ej. rewrite Em in Ej. discriminate Ej.
  - exact Hbump.
  - intros i Ei. destruct J1 as [_ J1m]. specialize (J1m i Ei).
    destruct Inv1' as [_ [Hm _]]. destruct (Hm i Ei) as [_ [K _]].
    split; [lia|]. rewrite K. exact Hbump.
Qed.

(* ================================================================ *)
(** ** Further properties: the two extraction helpers *)
(* ================================================================ *)

Lemma slice_contiguous (s : jsstring) (n m : nat) :
  s = firstn n s ++ firstn m (skipn n s) ++ skipn m (skipn n s).
Proof.
  forget_environment.
  rewrite (firstn_skipn m (skipn n s)), (firstn_skipn n s). reflexivity.
Qed.

Lemma substring_contiguous (s : jsstring) (a b : Z) :
  exists before after, s = before ++ substring s a b ++ after.
Proof.
  forget_environment.
  unfold substring, slice. do 2 eexists. apply slice_contiguous.
Qed.

(** With a start of [-1], [substring] answers what precedes [end]. *)
Lemma substring_from_minus_one (s : jsstring) (b : Z) :
  0 <= b <= Z.of_nat (length s) ->
  substring s (-1) b = firstn (Z.to_nat b) s.
Proof.
  forget_environment.
  intros H. unfold substring, clamp, slice.
  replace (Z.min (Z.max (-1) 0) (Z.of_nat (length s))) with 0 by lia.
  replace (Z.min (Z.max b 0) (Z.of_nat (length s))) with b by lia.
  rewrite Z.min_l, Z.max_r by lia. simpl skipn. f_equal. lia.
Qed.

(** A code unit met before the end of [pre] belongs to [pre]. *)
Lemma early_occurrence_in_prefix (c : N) (p q pre y : jsstring) :
  p ++ c :: q = pre ++ y -> (length p < length pre)%nat -> In c pre.
Proof.
  forget_environment.
  intros E L.
  destruct (prefix_of_longer p pre (c :: q) y E) as [m Hm]; [lia|].
  subst pre. rewrite length_app in L. rewrite <- app_assoc in E.
  apply app_inv_head in E.
  destruct m as [|x m]; [simpl in L; lia|].
  inversion E; subst. apply in_or_app. right. left. reflexivity.
Qed.

(** The first occurrence of a code unit that [pre] does not hold. *)
Lemma indexOf_char (c : N) (pre rest : jsstring) :
  ~ In c pre -> indexOf (pre ++ c :: rest) [c] = Z.of_nat (length pre).
Proof.
  forget_environment.
  intros Hpre.
  assert (O : occurs_after [c] (pre ++ c :: rest) pre)
    by (exists rest; reflexivity).
  destruct (indexOf_spec (pre ++ c :: rest) [c])
    as [[_ N] | [p [[q E] [R Min]]]]; [destruct (N _ O)|].
  specialize (Min _ O). rewrite R. f_equal.
  destruct (Nat.eq_dec (length p) (length pre)) as [L | L]; [exact L|].
  exfalso. apply Hpre.
  apply (early_occurrence_in_prefix c p q pre (c :: rest));
    [symmetry; exact E | lia].
Qed.

(** The last occurrence of a code unit that [post] does not hold. *)
Lemma lastIndexOf_char (c : N) (pre post : jsstring) :
  ~ In c post -> lastIndexOf (pre ++ c :: post) [c] = Z.of_nat (length pre).
Proof.
  forget_environment.
  intros Hpost.
  assert (O : occurs_after [c] (pre ++ c :: post) pre)
    by (exists post; reflexivity).
  destruct (lastIndexOf_spec (pre ++ c :: post) [c])
    as [[_ N] | [p [[q E] [R Max]]]]; [destruct (N _ O)|].
  specialize (Max _ O). rewrite R. f_equal.
  destruct (Nat.eq_dec (length p) (length pre)) as [L | L]; [exact L|].
  exfalso. apply Hpost.
  destruct (prefix_of_longer (pre ++ [c]) p post (c :: q)) as [m Hm].
  - rewrite <- app_assoc. simpl. exact E.
  - rewrite length_app. simpl. lia.
  - subst p. rewrite <- !app_assoc in E. simpl in E.
    apply app_inv_head in E. inversion E; subst.
    apply in_or_app. right. left. reflexivity.
Qed.

(** X1.  [parseJSON] is blind to what surrounds the payload: for a text
    made of any words without an opening brace, then a brace-delimited
    payload, then any words without a closing brace, it answers exactly as
    [JSON.parse] does on the payload alone, value or error. *)
Theorem parseJSON_ignores_commentary (pre body post : jsstring) :
  ~ In 123%N pre -> ~ In 125%N post ->
  parseJSON (pre ++ (123%N :: body ++ [125%N]) ++ post)
  = match JSON_parse (123%N :: body ++ [125%N]) with
    | Some v => inl v
    | None => inr (JsSyntaxError (123%N :: body ++ [125%N]))
    end.
Proof.
  forget_environment.
  intros Hpre Hpost. unfold parseJSON.
  assert (E1 : indexOf (pre ++ (123%N :: body ++ [125%N]) ++ post) LBRACE
               = Z.of_nat (length pre)).
  { simpl app. apply (indexOf_char 123%N pre); exact Hpre. }
  assert (E2 : lastIndexOf (pre ++ (123%N :: body ++ [125%N]) ++ post) RBRACE
               = Z.of_nat (length (pre ++ 123%N :: body))).
  { replace (pre ++ (123%N :: body ++ [125%N]) ++ post)
      with ((pre ++ 123%N :: body) ++ 125%N :: post)
      by (rewrite <- !app_assoc; simpl; rewrite <- app_assoc; reflexivity).
    apply (lastIndexOf_char 125%N); exact Hpost. }
  rewrite E1, E2.
  assert (E3 : substring (pre ++ (123%N :: body ++ [125%N]) ++ post)
                 (Z.of_nat (length pre))
                 (Z.of_nat (length (pre ++ 123%N :: body)) + 1)
               = 123%N :: body ++ [125%N]).
  { rewrite substring_slice.
    - replace (Z.of_nat (length (pre ++ 123%N :: body)) + 1)
        with (Z.of_nat (length pre + length (123%N :: body ++ [125%N]))).
      + apply slice_app.
      + rewrite length_app. simpl. rewrite length_app. simpl. lia.
    - rewrite length_app. simpl. lia.
    - rewrite !length_app. simpl. rewrite !length_app. simpl. lia. }
  rewrite E3. reflexivity.
Qed.

(** X2.  [parseHTML] never makes text up: whatever the text and the
    closer, what it returns is one contiguous part of the text. *)
Theorem parseHTML_returns_part_of_text (str opener closer : jsstring) :
  exists before after, str = before ++ parseHTML str opener closer ++ after.
Proof.
  forget_environment.
  unfold parseHTML. apply substring_contiguous.
Qed.

(** X3.  A missing [<!DOCTYPE html>] marker is not an error for
    [parseHTML]: when the closer occurs, it returns everything that
    precedes the last occurrence of the closer. *)
Theorem parseHTML_without_marker (str opener closer pre : jsstring) :
  (forall p, ~ occurs_after DOCTYPE str p) ->
  occurs_after closer str pre ->
  (forall p, occurs_after closer str p -> (length p <= length pre)%nat) ->
  parseHTML str opener closer = pre.
Proof.
  forget_environment.
  intros Hno O Max. unfold parseHTML.
  destruct (indexOf_spec str DOCTYPE) as [[R1 _] | [p [Op _]]];
    [|destruct (Hno p Op)].
  destruct (lastIndexOf_spec str closer) as [[_ N] | [p2 [O2 [R2 Max2]]]];
    [destruct (N pre O)|].
  assert (L : length p2 = length pre)
    by (apply Nat.le_antisymm; [apply Max, O2 | apply Max2, O]).
  pose proof (occurs_after_length _ _ _ O2) as Len.
  rewrite R1, R2, substring_from_minus_one by lia. rewrite Nat2Z.id, L.
  destruct O as [post ->].
  rewrite firstn_app, firstn_all, Nat.sub_diag. simpl. apply app_nil_r.
Qed.

(** X4.  Fencing and extracting: when the first marker of a text is the
    start of a document, and the last occurrence of the closer is the one
    right after that document, [parseHTML] returns the document, marker
    included and closer excluded, whatever precedes and follows. *)
Theorem parseHTML_extracts_document
  (str opener closer pre body post : jsstring) :
  str = pre ++ (DOCTYPE ++ body) ++ closer ++ post ->
  (forall p, occurs_after DOCTYPE str p -> (length pre <= length p)%nat) ->
  (forall p, occurs_after closer str p ->
             (length p <= length (pre ++ DOCTYPE ++ body))%nat) ->
  parseHTML str opener closer = DOCTYPE ++ body.
Proof.
  forget_environment.
  intros Hs Hfirst Hlast.
  assert (Hs' : str = pre ++ DOCTYPE ++ body ++ closer ++ post)
    by (rewrite Hs, <- !app_assoc; reflexivity).
  destruct (parseHTML_between str opener closer pre body post Hs')
    as [Hslice _].
  rewrite Hslice.
  assert (O1 : occurs_after DOCTYPE str pre)
    by (exists (body ++ closer ++ post); exact Hs').
  assert (O2 : occurs_after closer str (pre ++ DOCTYPE ++ body)).
  { exists post. rewrite Hs', <- !app_assoc. reflexivity. }
  assert (E1 : indexOf str DOCTYPE = Z.of_nat (length pre)).
  { destruct (indexOf_spec str DOCTYPE) as [[_ N] | [p [Op [R Min]]]];
      [destruct (N _ O1)|].
    rewrite R. f_equal. apply Nat.le_antisymm; [apply Min, O1 | apply Hfirst, Op]. }
  assert (E2 : lastIndexOf str closer
               = Z.of_nat (length pre + length (DOCTYPE ++ body))).
  { destruct (lastIndexOf_spec str closer) as [[_ N] | [p [Op [R Max]]]];
      [destruct (N _ O2)|].
    rewrite R. f_equal. rewrite <- length_app.
    apply Nat.le_antisymm; [apply Hlast, Op | apply Max, O2]. }
  rewrite E1, E2, Hs. apply slice_app.
Qed.

(* ================================================================ *)
(** ** Further properties: how a run ends *)
(* ================================================================ *)

(** X5.  Without a credential nothing is sent: a run that is not
    pre-seeded ends at once in [error] with the message of
    [generateText], the spec and the code empty, whatever the backend
    might have answered. *)
Theorem run_without_credential (props : ContentContainerProps)
  (s : ContainerState) (outcomes : list BackendOutcome) :
  truthy_opt GEMINI_API_KEY = false ->
  truthy_opt (preSeededSpec props) && truthy_opt (preSeededCode props)
  = false ->
  exists s',
    run (generateContent props) s outcomes = ([], (s', Finished (inl tt)))
    /\ loadingState s' = error_state
    /\ error s' = Some (js "Gemini API key is missing or empty")
    /\ spec s' = [] /\ code s' = [].
Proof.
  intros K Hfresh. unfold generateContent. rewrite Hfresh.
  unfold generateSpecFromVideo, generateText. rewrite K. simpl.
  rewrite run_unfold. simpl.
  eexists. split; [reflexivity|]. repeat split; reflexivity.
Qed.

(** X6.  When stage one fails (the call is rejected, a check of
    [generateText] fails, or no spec can be read from the answer), the run
    ends in [error] with the message of that failure, the spec and the
    code are empty, and stage two is never called: one call was issued,
    however many answers were on offer.  A thrown value that is no
    [Error] gives the message [An unknown error occurred]. *)
Theorem stage_one_failure (props : ContentContainerProps)
  (s : ContainerState) (o1 : BackendOutcome) (rest : list BackendOutcome)
  (e : exn) :
  truthy_opt GEMINI_API_KEY = true ->
  truthy_opt (preSeededSpec props) && truthy_opt (preSeededCode props)
  = false ->
  check_response o1 = Throw e
  \/ (exists r1, check_response o1 = Ret r1 /\ spec_of_response r1 = inr e) ->
  (exists s1 req1 s',
     run (generateContent props) s (o1 :: rest)
     = ([(s1, req1)], (s', Finished (inl tt)))
     /\ model req1 = js "gemini-2.0-flash"
     /\ loadingState s' = error_state
     /\ error s' = Some (error_message e)
     /\ spec s' = [] /\ code s' = [])
  /\ error_message NonError = js "An unknown error occurred".
Proof.
  intros K Hfresh Hfail. split; [|reflexivity].
  unfold generateContent. rewrite Hfresh.
  unfold generateSpecFromVideo, generateText. rewrite K. simpl.
  rewrite run_unfold. simpl.
  destruct Hfail as [R | [r1 [R P]]]; rewrite R; simpl.
  - rewrite ?run_unfold. simpl.
    do 3 eexists. split; [reflexivity|]. repeat split; reflexivity.
  - unfold spec_of_response in P.
    destruct (parseJSON r1) as [v | e1]; simpl.
    + destruct (read_spec v) as [x | e2]; simpl.
      * rewrite P. simpl. rewrite ?run_unfold. simpl.
        do 3 eexists. split; [reflexivity|]. repeat split; reflexivity.
      * inversion P; subst. rewrite ?run_unfold. simpl.
        do 3 eexists. split; [reflexivity|]. repeat split; reflexivity.
    + inversion P; subst. rewrite ?run_unfold. simpl.
      do 3 eexists. split; [reflexivity|]. repeat split; reflexivity.
Qed.

(** X7.  When stage one gives a spec and stage two fails, the run ends
    in [error] with the message of that failure; the spec of stage one,
    stored before stage two was called with it as the prompt, stays, and
    the code is empty. *)
Theorem stage_two_failure (props : ContentContainerProps)
  (s : ContainerState) (o1 o2 : BackendOutcome) (rest : list BackendOutcome)
  (r1 spec1 : jsstring) (e : exn) :
  truthy_opt GEMINI_API_KEY = true ->
  truthy_opt (preSeededSpec props) && truthy_opt (preSeededCode props)
  = false ->
  check_response o1 = Ret r1 ->
  spec_of_response r1 = inl spec1 ->
  check_response o2 = Throw e ->
  exists s1 req1 s2 req2 s',
    run (generateContent props) s (o1 :: o2 :: rest)
    = ([(s1, req1); (s2, req2)], (s', Finished (inl tt)))
    /\ spec s2 = spec1
    /\ loadingState s2 = loading_code
    /\ model req2 = js "gemini-2.5-pro-preview-03-25"
    /\ contents req2 = [ {| role := js "user"; parts := [TextPart spec1] |} ]
    /\ loadingState s' = error_state
    /\ error s' = Some (error_message e)
    /\ spec s' = spec1 /\ code s' = [].
Proof.
  intros K Hfresh R1 P R2.
  unfold generateContent. rewrite Hfresh.
  unfold generateSpecFromVideo, generateCodeFromSpec, generateText.
  rewrite K. simpl.
  rewrite ?run_unfold. simpl. rewrite R1. simpl.
  unfold spec_of_response in P.
  destruct (parseJSON r1) as [v | e1]; [|discriminate P]. simpl.
  destruct (read_spec v) as [x | e2]; [|discriminate P]. simpl.
  rewrite P. simpl. rewrite ?run_unfold. simpl. rewrite R2. simpl.
  rewrite ?run_unfold. simpl.
  do 5 eexists. split; [reflexivity|]. repeat split; reflexivity.
Qed.

(** X8.  Every run ends, and ends in [ready] or in [error]: once the
    (at most two) backend calls have settled, whatever they settled with,
    the effect has returned without throwing, it has issued two calls at
    most, and the component either is [ready] with no error message, or is
    in [error] with an error message and no code. *)
Theorem run_ends_ready_or_error (props : ContentContainerProps)
  (o1 o2 : BackendOutcome) (rest : list BackendOutcome) :
  exists calls s',
    run (generateContent props) (initial_state props) (o1 :: o2 :: rest)
    = (calls, (s', Finished (inl tt)))
    /\ (length calls <= 2)%nat
    /\ ((loadingState s' = ready /\ error s' = None)
        \/ (loadingState s' = error_state
            /\ code s' = []
            /\ exists message, error s' = Some message)).
Proof.
  unfold generateContent.
  destruct (truthy_opt (preSeededSpec props)
            && truthy_opt (preSeededCode props)) eqn:Hseed.
  { rewrite ?run_unfold. simpl.
    do 2 eexists. split; [reflexivity|]. split; [simpl; lia|].
    left. split; reflexivity. }
  unfold generateSpecFromVideo, generateCodeFromSpec, generateText.
  destruct (truthy_opt GEMINI_API_KEY); simpl.
  2:{ rewrite ?run_unfold. simpl.
      do 2 eexists. split; [reflexivity|]. split; [simpl; lia|].
      right. split; [reflexivity|]. split; [reflexivity|].
      eexists; reflexivity. }
  rewrite ?run_unfold. simpl.
  destruct (check_response_shape o1) as [[r1 R1] | [e1 R1]];
    rewrite R1; simpl.
  2:{ do 2 eexists. split; [reflexivity|]. split; [simpl; lia|].
      right. split; [reflexivity|]. split; [reflexivity|].
      eexists; reflexivity. }
  destruct (parseJSON r1) as [v | e1]; simpl.
  2:{ do 2 eexists. split; [reflexivity|]. split; [simpl; lia|].
      right. split; [reflexivity|]. split; [reflexivity|].
      eexists; reflexivity. }
  destruct (read_spec v) as [x | e2]; simpl.
  2:{ do 2 eexists. split; [reflexivity|]. split; [simpl; lia|].
      right. split; [reflexivity|]. split; [reflexivity|].
      eexists; reflexivity. }
  destruct (plus_string x SPEC_ADDENDUM) as [spec1 | e3]; simpl.
  2:{ do 2 eexists. split; [reflexivity|]. split; [simpl; lia|].
      right. split; [reflexivity|]. split; [reflexivity|].
      eexists; reflexivity. }
  destruct (check_response_shape o2) as [[r2 R2] | [e2 R2]];
    rewrite R2; simpl; rewrite ?run_unfold; simpl;
    (do 2 eexists; split; [reflexivity|]; split; [simpl; lia|]).
  - left. split; reflexivity.
  - right. split; [reflexivity|]. split; [reflexivity|].
      eexists; reflexivity.
Qed.

(** X9.  An answer of stage one whose payload is an object without a
    [spec] member is no failure: the spec becomes the text [undefined]
    followed by the addendum, and stage two is called with that text as
    its prompt. *)
Theorem spec_member_missing (props : ContentContainerProps)
  (s : ContainerState) (o1 : BackendOutcome) (r1 : jsstring)
  (members : list (jsstring * json)) :
  truthy_opt GEMINI_API_KEY = true ->
  truthy_opt (preSeededSpec props) && truthy_opt (preSeededCode props)
  = false ->
  check_response o1 = Ret r1 ->
  parseJSON r1 = inl (JObject members) ->
  lookup_member (js "spec") members = None ->
  exists s1 req1 s2 req2 k,
    run (generateContent props) s [o1]
    = ([(s1, req1); (s2, req2)], (s2, Waiting req2 k))
    /\ spec s2 = js "undefined" ++ SPEC_ADDENDUM
    /\ loadingState s2 = loading_code
    /\ error s2 = None
    /\ contents req2
       = [ {| role := js "user";
              parts := [TextPart (js "undefined" ++ SPEC_ADDENDUM)] |} ].
Proof.
  intros K Hfresh R1 J L.
  unfold generateContent. rewrite Hfresh.
  unfold generateSpecFromVideo, generateCodeFromSpec, generateText.
  rewrite K. simpl.
  rewrite ?run_unfold. simpl. rewrite R1. simpl. rewrite J. simpl.
  unfold read_spec. rewrite L. simpl. rewrite ?run_unfold. simpl.
  do 5 eexists. split; [reflexivity|]. repeat split; reflexivity.
Qed.

(* ================================================================ *)
(** ** Further properties: saving the spec again *)
(* ================================================================ *)

Lemma trim_start_fixed (s : jsstring) :
  (forall c t, s = c :: t -> is_white_space c = false) -> trim_start s = s.
Proof.
  forget_environment.
  destruct s as [|c t]; [reflexivity|]. intros H. simpl.
  rewrite (H c t eq_refl). reflexivity.
Qed.

(** Trimming a trimmed string changes nothing. *)
Lemma trim_idempotent (s : jsstring) : trim (trim s) = trim s.
Proof.
  forget_environment.
  assert (H1 : trim_start (trim s) = trim s)
    by (apply trim_start_fixed; intros c t E; exact (trim_head _ _ _ E)).
  unfold trim at 1. rewrite H1. unfold trim_end.
  rewrite trim_start_fixed; [apply rev_involutive|].
  intros c t E. apply (trim_last s (rev t)).
  rewrite <- (rev_involutive (trim s)), E. reflexivity.
Qed.

(** X10.  A spec-save with a changed spec, when the call returns a text,
    ends in [ready]: the spec is the trimmed edit, the code is what
    [parseHTML] extracts from the text, no error is left (also when the
    component was in [error] before), the editor is closed and the code
    tab is shown.  One call was issued. *)
Theorem handleSpecSave_regenerates (cur : ContainerState)
  (o : BackendOutcome) (rest : list BackendOutcome) (r : jsstring) :
  trim (editedSpec cur) <> spec cur ->
  truthy_opt GEMINI_API_KEY = true ->
  check_response o = Ret r ->
  exists s1 req s',
    run (handleSpecSave cur) cur (o :: rest)
    = ([(s1, req)], (s', Finished (inl tt)))
    /\ error s1 = None
    /\ loadingState s' = ready
    /\ error s' = None
    /\ spec s' = trim (editedSpec cur)
    /\ code s' = parseHTML r CODE_REGION_OPENER CODE_REGION_CLOSER
    /\ isEditingSpec s' = false
    /\ activeTabIndex s' = 1.
Proof.
  intros H K R. rewrite (handleSpecSave_changed cur H).
  rewrite !run_Update.
  destruct (generateCodeFromSpec_shape (trim (editedSpec cur)))
    as [[K' _] | [_ E]]; [congruence|].
  rewrite E. rewrite run_unfold. simpl. rewrite R. simpl.
  rewrite ?run_unfold. simpl.
  do 3 eexists. split; [reflexivity|]. repeat split; reflexivity.
Qed.

(** What a spec-save with a changed spec leaves as the spec, however it
    ends. *)
Lemma handleSpecSave_stores_trimmed (cur : ContainerState)
  (outcomes : list BackendOutcome) (s' : ContainerState) (r : Result unit) :
  trim (editedSpec cur) <> spec cur ->
  snd (run (handleSpecSave cur) cur outcomes) = (s', Finished r) ->
  spec s' = trim (editedSpec cur).
Proof.
  intros H. rewrite (handleSpecSave_changed cur H). rewrite !run_Update.
  destruct (generateCodeFromSpec_shape (trim (editedSpec cur)))
    as [[K E] | [K E]]; rewrite E; clear E.
  - rewrite run_unfold. simpl. intros F; inversion F; subst. reflexivity.
  - destruct outcomes as [|o rest]; [simpl; discriminate|].
    rewrite run_unfold. simpl.
    destruct (check_response_shape o) as [[x R] | [e R]]; rewrite R; simpl;
      rewrite ?run_unfold; simpl; intros F; inversion F; subst; reflexivity.
Qed.

(** X11.  Saving is idempotent.  After a spec-save that changed the spec
    has ended (in [ready] or in [error]), opening the editor again and
    saving without typing issues no call and leaves the spec, the code and
    the loading state as they are: the stored spec is a trimmed text, and
    trimming it again gives the same text. *)
Theorem resave_after_save_is_noop (cur s' : ContainerState)
  (outcomes outcomes' : list BackendOutcome) :
  trim (editedSpec cur) <> spec cur ->
  snd (run (handleSpecSave cur) cur outcomes) = (s', Finished (inl tt)) ->
  let reopened := fst (run_sync (handleSpecEdit s') s') in
  editedSpec reopened = spec s'
  /\ isEditingSpec reopened = true
  /\ exists s'',
       run (handleSpecSave reopened) reopened outcomes'
       = ([], (s'', Finished (inl tt)))
       /\ spec s'' = spec s'
       /\ code s'' = code s'
       /\ loadingState s'' = loadingState s'
       /\ isEditingSpec s'' = false.
Proof.
  intros H F reopened.
  pose proof (handleSpecSave_stores_trimmed cur outcomes s' _ H F) as Hs.
  assert (T : trim (spec s') = spec s')
    by (rewrite Hs; apply trim_idempotent).
  subst reopened. simpl.
  split; [reflexivity|]. split; [reflexivity|].
  unfold handleSpecSave. simpl.
  rewrite T, jsstring_eqb_refl.
  rewrite run_unfold. simpl.
  eexists. split; [reflexivity|]. repeat split; reflexivity.
Qed.

(* ================================================================ *)
(** ** Further properties: the session *)
(* ================================================================ *)

Lemma truthy_false (s : jsstring) : truthy s = false <-> s = [].
Proof.
  forget_environment.
  destruct s; simpl; split; intros H; try reflexivity; discriminate.
Qed.

(** A render that changes neither the run counter nor the props keeps the
    component that is mounted and makes none. *)
Lemma render_same_run (a : App.State) (old : option Instance)
  (queue : list Task) (fresh : nat) :
  (old = None -> truthy (App.videoUrl a) = false) ->
  (forall i, old = Some i ->
     truthy (App.videoUrl a) = true
     /\ key i = App.reloadCounter a
     /\ props i = App.container_props a) ->
  render a old queue fresh
  = {| appState :=
         match old with
         | Some i =>
             App.handleContentLoadingStateChange (isLoading (state i)) a
         | None => a
         end;
       mounted := old; pending := queue; next_iid := fresh |}.
Proof.
  intros Hn Hs. unfold render. destruct old as [i|].
  - destruct (Hs i eq_refl) as [T [K P]]. rewrite T. simpl.
    rewrite K, Z.eqb_refl, P, same_deps_refl. simpl.
    rewrite app_nil_r. reflexivity.
  - rewrite (Hn eq_refl). reflexivity.
Qed.

(** In a state every render could have left, rendering again changes
    nothing. *)
Lemma render_fixed (sys : System) :
  session_invariant sys ->
  render (appState sys) (mounted sys) (pending sys) (next_iid sys) = sys.
Proof.
  intros [Hn [Hm _]]. rewrite render_same_run.
  - destruct sys as [a m q n]. simpl in *. f_equal.
    destruct m as [i|]; [|reflexivity].
    destruct (Hm i eq_refl) as [_ [_ [_ [L _]]]].
    destruct a. simpl in *. subst. reflexivity.
  - exact Hn.
  - intros i E. destruct (Hm i E) as [T [K [P _]]]. auto.
Qed.

(** X12.  In every state a session can reach, [App] and the component
    agree: a [ContentContainer] is mounted exactly when there is a video
    URL; its key is the run counter, its content basis is the video URL,
    and the busy flag of [App] tells whether it is in one of its two
    loading states. *)
Theorem session_is_consistent (events : list Event) :
  let sys := exec initial_system events in
  (mounted sys = None <-> App.videoUrl (appState sys) = [])
  /\ forall i, mounted sys = Some i ->
       key i = App.reloadCounter (appState sys)
       /\ contentBasis (props i) = App.videoUrl (appState sys)
       /\ (App.contentLoading (appState sys) = true
           <-> loadingState (state i) = loading_spec
               \/ loadingState (state i) = loading_code).
Proof.
  intros sys.
  assert (Inv : session_invariant sys)
    by (apply exec_invariant, initial_invariant).
  destruct Inv as [Hn [Hm _]]. split.
  - split.
    + intros E. apply truthy_false, Hn, E.
    + intros E. destruct (mounted sys) as [i|] eqn:Em; [|reflexivity].
      destruct (Hm i eq_refl) as [T _]. rewrite E in T. discriminate T.
  - intros i Ei. destruct (Hm i Ei) as [_ [K [P [L _]]]].
    split; [exact K|]. split; [rewrite P; reflexivity|].
    rewrite L. unfold isLoading.
    destruct (loadingState (state i)); split; intros H;
      try reflexivity; try discriminate; auto;
      destruct H; discriminate.
Qed.

(** X13.  What starts no run changes nothing it should not.  In every
    reachable state, submitting a blank input, or submitting while a URL
    is being validated, leaves the whole session as it is; and a URL that
    fails validation only ends the validation: the mounted component, the
    pending calls, the run counter and the video URL stay. *)
Theorem no_run_without_accepted_url (events : list Event)
  (raw inputValue : jsstring) (isPreSeededExample : bool) :
  let sys := exec initial_system events in
  (truthy (trim raw) = false \/ App.urlValidating (appState sys) = true ->
   step sys (Submit raw isPreSeededExample) = sys)
  /\ (let sys' := step sys (Validated inputValue false) in
      mounted sys' = mounted sys
      /\ pending sys' = pending sys
      /\ next_iid sys' = next_iid sys
      /\ App.reloadCounter (appState sys') = App.reloadCounter (appState sys)
      /\ App.videoUrl (appState sys') = App.videoUrl (appState sys)
      /\ App.urlValidating (appState sys') = false).
Proof.
  intros sys.
  assert (Inv : session_invariant sys)
    by (apply exec_invariant, initial_invariant).
  split.
  - intros H. simpl.
    assert (E : App.handleSubmit raw isPreSeededExample (appState sys)
                = appState sys).
    { unfold App.handleSubmit. destruct H as [H | H]; rewrite H; simpl;
        [reflexivity|]. destruct (negb (truthy (trim raw))); reflexivity. }
    rewrite E. apply render_fixed, Inv.
  - simpl. destruct Inv as [Hn [Hm _]].
    rewrite render_same_run.
    + simpl. destruct (mounted sys); repeat split; reflexivity.
    + exact Hn.
    + intros i E. destruct (Hm i E) as [T [K [P _]]]. auto.
Qed.

(** What a render does to the run counter and to the count of
    instances, after a handler of [App] that [keeps_or_starts_run]. *)
Lemma render_counts (a' : App.State) (old : option Instance)
  (queue : list Task) (sys : System) :
  session_invariant sys ->
  (old = None <-> mounted sys = None) ->
  (forall i, old = Some i -> key i = App.reloadCounter (appState sys)) ->
  keeps_or_starts_run (appState sys) a' ->
  let sys' := render a' old queue (next_iid sys) in
  App.reloadCounter (appState sys) <= App.reloadCounter (appState sys')
  /\ (next_iid sys' = next_iid sys
      \/ (next_iid sys' = S (next_iid sys)
          /\ App.reloadCounter (appState sys')
             = App.reloadCounter (appState sys) + 1)).
Proof.
  intros [Hn _] Hold Hkey Hrun sys'. subst sys'.
  rewrite render_counter.
  destruct (render_spec a' old queue (next_iid sys))
    as [[T E] | [T [inst [started [fresh' [E [K [P [O C]]]]]]]]];
    rewrite E; simpl.
  - split; [|left; reflexivity].
    destruct Hrun as [[Hc _] | Hc]; lia.
  - destruct C as [[i [Ei [Ek [_ ->]]]] | [Hnew [_ ->]]].
    + split; [|left; reflexivity].
      destruct Hrun as [[Hc _] | Hc]; lia.
    + destruct Hrun as [[Hc Hv] | Hc]; [exfalso | split; [lia | right; auto]].
      destruct Hnew as [-> | [i [Ei Ek]]].
      * assert (Hm : mounted sys = None) by (apply Hold; reflexivity).
        specialize (Hn Hm).
        destruct Hv as [Hv | [Hv _]]; rewrite Hv in T;
          [discriminate T | congruence].
      * apply Ek. rewrite (Hkey i Ei). exact Hc.
Qed.

Lemma handleSubmit_keeps_or_starts (raw : jsstring) (b : bool)
  (a : App.State) :
  keeps_or_starts_run a (App.handleSubmit raw b a).
Proof.
  forget_environment.
  unfold keeps_or_starts_run, App.handleSubmit.
  destruct (negb (truthy (trim raw))); [left; auto|].
  destruct (App.urlValidating a); [left; auto|].
  destruct b; simpl; [right; reflexivity | left; auto].
Qed.

(** X14.  The run counter counts the runs.  No event makes it smaller;
    an event makes a new component instance only when it adds one to the
    counter; so, in every reachable state, no more instances have been
    made than the counter tells. *)
Theorem run_counter_counts_instances (events : list Event) (e : Event) :
  let sys := exec initial_system events in
  let sys' := step sys e in
  App.reloadCounter (appState sys) <= App.reloadCounter (appState sys')
  /\ (next_iid sys' = next_iid sys
      \/ (next_iid sys' = S (next_iid sys)
          /\ App.reloadCounter (appState sys')
             = App.reloadCounter (appState sys) + 1))
  /\ Z.of_nat (next_iid sys) <= App.reloadCounter (appState sys).
Proof.
  assert (Hstep : forall sys e0,
    session_invariant sys ->
    let sys' := step sys e0 in
    App.reloadCounter (appState sys) <= App.reloadCounter (appState sys')
    /\ (next_iid sys' = next_iid sys
        \/ (next_iid sys' = S (next_iid sys)
            /\ App.reloadCounter (appState sys')
               = App.reloadCounter (appState sys) + 1))).
  { intros sys e0 Inv.
    assert (Hm : forall i, mounted sys = Some i ->
                           key i = App.reloadCounter (appState sys))
      by (intros i Ei; destruct Inv as [_ [Hm _]]; apply (Hm i Ei)).
    assert (Hsame : keeps_or_starts_run (appState sys) (appState sys))
      by (left; auto).
    assert (Hcomp : forall h,
      let sys' := in_component h sys in
      App.reloadCounter (appState sys) <= App.reloadCounter (appState sys')
      /\ (next_iid sys' = next_iid sys
          \/ (next_iid sys' = S (next_iid sys)
              /\ App.reloadCounter (appState sys')
                 = App.reloadCounter (appState sys) + 1))).
    { intros h. unfold in_component.
      destruct (mounted sys) as [i|] eqn:Em; [|simpl; split; [lia | auto]].
      destruct (run_sync _ _) as [s w].
      apply render_counts; auto.
      - rewrite Em. split; discriminate.
      - intros j Ej; inversion Ej; subst j. simpl. apply Hm. reflexivity. }
    destruct e0; cbn [step]; try apply Hcomp.
    - apply render_counts; [exact Inv | tauto | exact Hm |].
      right. reflexivity.
    - apply render_counts; [exact Inv | tauto | exact Hm |].
      apply handleSubmit_keeps_or_starts.
    - apply render_counts; [exact Inv | tauto | exact Hm |].
      unfold keeps_or_starts_run, App.handleSubmit_validated.
      destruct isValid; simpl; [right; reflexivity | left; auto].
    - apply render_counts; [exact Inv | tauto | exact Hm |].
      left. simpl. auto.
    - unfold settle.
      destruct (nth_error (pending sys) n) as [t|]; [|simpl; split; [lia|auto]].
      destruct (mounted sys) as [i|] eqn:Em.
      + destruct (Nat.eqb (owner t) (iid i)).
        * destruct (run_sync _ _) as [s w].
          apply render_counts; auto.
          -- rewrite Em. split; discriminate.
          -- intros j Ej; inversion Ej; subst j. simpl. apply Hm. reflexivity.
        * apply render_counts; auto. rewrite Em. split; discriminate.
      + apply render_counts; auto. rewrite Em. tauto. }
  assert (Hall : forall evs sys,
    session_invariant sys ->
    Z.of_nat (next_iid sys) <= App.reloadCounter (appState sys) ->
    Z.of_nat (next_iid (exec sys evs))
    <= App.reloadCounter (appState (exec sys evs))).
  { induction evs as [|e0 evs IH]; intros sys Inv Hle; [exact Hle|].
    simpl. apply IH; [apply step_invariant, Inv|].
    destruct (Hstep sys e0 Inv) as [H1 [H2 | [H2 H3]]]; simpl in *; lia. }
  intros sys sys'.
  assert (Inv : session_invariant sys)
    by (apply exec_invariant, initial_invariant).
  destruct (Hstep sys e Inv) as [H1 H2].
  split; [exact H1|]. split; [exact H2|].
  apply Hall; [apply initial_invariant | simpl; lia].
Qed.

(** A render with a run counter that differs from the key of what was
    mounted mounts a new instance. *)
Lemma render_remounts (a : App.State) (old : option Instance)
  (queue : list Task) (fresh : nat) :
  truthy (App.videoUrl a) = true ->
  (forall i, old = Some i -> key i <> App.reloadCounter a) ->
  render a old queue fresh
  = {| appState :=
         App.handleContentLoadingStateChange
           (isLoading (state (fst (mount a fresh)))) a;
       mounted := Some (fst (mount a fresh));
       pending := queue ++ snd (mount a fresh);
       next_iid := S fresh |}.
Proof.
  intros T Hk. unfold render. rewrite T. simpl.
  destruct old as [i|].
  - destruct (App.reloadCounter a =? key i) eqn:E.
    + apply Z.eqb_eq in E. destruct (Hk i eq_refl). symmetry; exact E.
    + destruct (mount a fresh). reflexivity.
  - destruct (mount a fresh). reflexivity.
Qed.

(** X15.  Selecting an example that carries a spec and a code shows it at
    once: in every reachable state, the selection mounts a new component
    whose key is the run counter plus one, already [ready] with the spec
    and the code of the example; no backend call is added to the pending
    ones, and [App] is not busy. *)
Theorem selecting_a_seeded_example_is_ready (events : list Event)
  (example : Example.t) :
  let sys := exec initial_system events in
  let sys' := step sys (ExampleSelect example) in
  truthy (Example.url example) = true ->
  truthy (Example.spec example) = true ->
  truthy (Example.code example) = true ->
  exists i,
    mounted sys' = Some i
    /\ iid i = next_iid sys
    /\ key i = App.reloadCounter (appState sys) + 1
    /\ contentBasis (props i) = Example.url example
    /\ spec (state i) = Example.spec example
    /\ code (state i) = Example.code example
    /\ loadingState (state i) = ready
    /\ error (state i) = None
    /\ pending sys' = pending sys
    /\ App.contentLoading (appState sys') = false.
Proof.
  intros sys sys' Hu Hs Hc. subst sys'. cbn [step].
  assert (Inv : session_invariant sys)
    by (apply exec_invariant, initial_invariant).
  rewrite render_remounts.
  - unfold mount, App.container_props, App.handleExampleSelect,
      generateContent, initial_state. simpl.
    rewrite Hs, Hc. simpl.
    eexists. split; [reflexivity|]. simpl.
    rewrite app_nil_r. repeat split; reflexivity.
  - exact Hu.
  - intros i Ei. destruct Inv as [_ [Hm _]].
    destruct (Hm i Ei) as [_ [K _]]. rewrite K. simpl. lia.
Qed.

(** X16.  Typing the URL of an example is not selecting it.  In every
    reachable state, a submitted URL that is found among the examples
    skips the validation, but the selected example has been cleared: the
    new component gets no pre-seeded spec or code, starts in
    [loading-spec] with the spec and the code empty, and (with a
    credential) its stage-one call on that URL joins the pending ones. *)
Theorem submitting_an_example_url_generates (events : list Event)
  (raw : jsstring) :
  let sys := exec initial_system events in
  let sys' := step sys (Submit raw true) in
  truthy (trim raw) = true ->
  App.urlValidating (appState sys) = false ->
  truthy_opt GEMINI_API_KEY = true ->
  exists i t,
    mounted sys' = Some i
    /\ key i = App.reloadCounter (appState sys) + 1
    /\ props i = {| contentBasis := trim raw;
                    preSeededSpec := None;
                    preSeededCode := None |}
    /\ loadingState (state i) = loading_spec
    /\ spec (state i) = [] /\ code (state i) = []
    /\ pending sys' = pending sys ++ [t]
    /\ owner t = iid i
    /\ model (request t) = js "gemini-2.0-flash"
    /\ contents (request t)
       = [ {| role := js "user";
              parts := [TextPart SPEC_FROM_VIDEO_PROMPT;
                        FileDataPart (js "video/mp4") (trim raw)] |} ]
    /\ App.selectedExample (appState sys') = None
    /\ App.urlValidating (appState sys') = false
    /\ App.contentLoading (appState sys') = true.
Proof.
  intros sys sys' Ht Hv K. subst sys'. cbn [step].
  assert (Inv : session_invariant sys)
    by (apply exec_invariant, initial_invariant).
  assert (E : App.handleSubmit raw true (appState sys)
              = {| App.videoUrl := trim raw;
                   App.urlValidating := false;
                   App.contentLoading := false;
                   App.reloadCounter := App.reloadCounter (appState sys) + 1;
                   App.selectedExample := None |}).
  { unfold App.handleSubmit. rewrite Ht, Hv. reflexivity. }
  rewrite E. clear E. rewrite render_remounts.
  - destruct (trim raw) as [|c u]; [discriminate Ht|].
    unfold mount, App.container_props, generateContent, initial_state.
    simpl. unfold generateSpecFromVideo, generateText. rewrite K. simpl.
    do 2 eexists. split; [reflexivity|]. simpl.
    repeat split; reflexivity.
  - exact Ht.
  - intros i Ei. destruct Inv as [_ [Hm _]].
    destruct (Hm i Ei) as [_ [Kk _]]. rewrite Kk. simpl. lia.
Qed.

(** X17.  [handleSubmit] reads the [url] of the default example without
    a guard.  While no example is loaded the default example is
    [undefined]: a first submit of a non-blank input then throws a
    [TypeError] after it has set the validating flag and cleared the video
    URL, starts no run, and every later submit, with or without examples,
    is ignored because the flag stays set.  With at least one example
    loaded the search never throws. *)
Theorem handleSubmit_needs_examples (raw : jsstring) (a : App.State) :
  truthy (trim raw) = true ->
  App.urlValidating a = false ->
  (exists a',
      App.handleSubmit_in (DataProvider.defaultExample []) [] raw a
      = (a', inr JsTypeError)
      /\ App.urlValidating a' = true
      /\ App.videoUrl a' = []
      /\ App.reloadCounter a' = App.reloadCounter a
      /\ forall examples raw',
           App.handleSubmit_in (DataProvider.defaultExample examples)
                               examples raw' a'
           = (a', inl tt))
  /\ (forall first others,
        exists found,
          App.isPreSeededExample
            (DataProvider.defaultExample (first :: others))
            (first :: others) (trim raw)
          = inl found
          /\ App.handleSubmit_in
               (DataProvider.defaultExample (first :: others))
               (first :: others) raw a
             = (App.handleSubmit raw found a, inl tt)).
Proof.
  forget_environment.
  intros Ht Hv. split.
  - eexists. unfold App.handleSubmit_in. rewrite Ht, Hv. simpl.
    split; [reflexivity|]. simpl. repeat split.
    intros examples raw'. destruct (negb (truthy (trim raw'))); reflexivity.
  - intros first others.
    assert (S : forall entries,
      exists found,
        App.some_url_matches (map Some entries) (trim raw) = inl found).
    { induction entries as [|x entries [found IH]]; simpl;
        [eexists; reflexivity|].
      destruct (jsstring_eqb (Example.url x) (trim raw));
        [eexists; reflexivity | eauto]. }
    destruct (S (first :: first :: others)) as [found Hf].
    exists found. split; [exact Hf|].
    unfold App.handleSubmit_in. rewrite Ht, Hv. simpl.
    unfold App.isPreSeededExample. simpl DataProvider.defaultExample.
    change (Some first :: map Some (first :: others))
      with (map Some (first :: first :: others)).
    rewrite Hf. reflexivity.
Qed.

(** X18.  The Enter key is gated by the run in flight.  In every
    reachable state, while the mounted component is in one of its loading
    states (which [App] knows through its busy flag), while a URL is being
    validated, or for any other key, [handleKeyDown] changes nothing: no
    second run is started from the input field. *)
Theorem enter_is_ignored_while_busy (events : list Event)
  (pressed raw : jsstring) (isPreSeededExample : bool) :
  let sys := exec initial_system events in
  (exists i, mounted sys = Some i
             /\ (loadingState (state i) = loading_spec
                 \/ loadingState (state i) = loading_code))
  \/ App.urlValidating (appState sys) = true
  \/ pressed <> js "Enter" ->
  App.handleKeyDown pressed raw isPreSeededExample (appState sys)
  = appState sys.
Proof.
  intros sys H.
  assert (Inv : session_invariant sys)
    by (apply exec_invariant, initial_invariant).
  unfold App.handleKeyDown.
  destruct H as [[i [Ei L]] | [V | N]].
  - destruct Inv as [_ [Hm _]]. destruct (Hm i Ei) as [_ [_ [_ [C _]]]].
    rewrite C. unfold isLoading.
    destruct L as [-> | ->]; simpl; rewrite andb_false_r; reflexivity.
  - rewrite V. simpl. rewrite andb_false_r. reflexivity.
  - rewrite (jsstring_eqb_neq _ _ N). reflexivity.
Qed.

End Pipeline.

(* ================================================================== *)
(** ** Concrete runs *)
(* ================================================================== *)

(** C3, the claim as it was stated: the text [1{] holds no closing brace,
    and [parseJSON] returns the number 1 for it instead of throwing.
    (Besides, a text that merely holds some balanced object is not enough
    for a result: on [{} {}] the text from the first opening to the last
    closing brace is the whole text, and [parseJSON] throws.) *)
Lemma parseJSON_returns_without_closing_brace :
  lastIndexOf (js "1{") RBRACE = -1
  /\ parseJSON (js "1{") = inl (JNumber (js "1"))
  /\ parseJSON (js "{} {}") = inr (JsSyntaxError (js "{} {}")).
Proof. repeat split; vm_compute; reflexivity. Qed.

(** [parseJSON] on three texts: a payload between words, a text without
    an opening brace, and [1{]. *)
Lemma parseJSON_first_to_last_brace_witness :
  parseJSON sample_spec_text = inl (JObject [(js "spec", JString (js "S1"))])
  /\ (exists e, parseJSON (js "no opening brace }") = inr e)
  /\ parseJSON (js "1{") = inl (JNumber (js "1")).
Proof.
  split; [|split].
  - apply (proj1 (parseJSON_first_to_last_brace sample_spec_text) 6 19);
      [vm_compute; reflexivity | vm_compute; reflexivity | lia
      | vm_compute; reflexivity].
  - apply (proj1 (proj2 (parseJSON_first_to_last_brace
                           (js "no opening brace }")))).
    vm_compute; reflexivity.
  - rewrite (proj2 (proj2 (parseJSON_first_to_last_brace (js "1{"))));
      [vm_compute; reflexivity | vm_compute; discriminate
      | vm_compute; reflexivity].
Defined.

(** [parseHTML] on [ab<!DOCTYPE html>cd] with a closer that does not
    occur: what precedes the marker. *)
Lemma parseHTML_without_closer_witness :
  parseHTML (js "ab<!DOCTYPE html>cd") (js "X") (js "END") = js "ab"
  /\ parseHTML (js "no marker") (js "X") (js "END") = [].
Proof.
  split.
  - apply (proj1 (parseHTML_without_closer (js "ab<!DOCTYPE html>cd") (js "X")
                    (js "END")
                    (lastIndexOf_absent (js "ab<!DOCTYPE html>cd") (js "END")
                                        eq_refl))).
    + exists (js "cd"). reflexivity.
    + apply (indexOf_first (js "ab<!DOCTYPE html>cd") DOCTYPE 2).
      vm_compute; reflexivity.
  - apply (proj2 (parseHTML_without_closer (js "no marker") (js "X") (js "END")
                    (lastIndexOf_absent (js "no marker") (js "END") eq_refl))).
    apply indexOf_absent. vm_compute; reflexivity.
Defined.

(** [generateText] on five answers of the backend, one for each outcome
    of the checks. *)
Lemma generateText_checks_in_order_witness :
  let s := sample_state [] [] in
  let settles_with response verdict :=
    run (generateText sample_key sample_options) s [Fulfilled response]
    = ([(s, build_request sample_options)], (s, Finished verdict)) in
  settles_with (blocked_response (js "OTHER"))
    (inr (JsError (js
       "Content generation failed: Prompt blocked (reason: OTHER)")))
  /\ settles_with
       {| promptFeedback := None; candidates := Some []; text := js "t" |}
       (inr (JsError (js "Content generation failed: No candidates returned.")))
  /\ settles_with (finished_response FinishReason_SAFETY (js "t"))
       (inr (JsError (js
   "Content generation failed: Response blocked due to safety settings.")))
  /\ settles_with (finished_response (js "MAX_TOKENS") (js "t"))
       (inr (JsError (js
          "Content generation failed: Stopped due to MAX_TOKENS.")))
  /\ settles_with (stop_response (js "t")) (inl (js "t")).
Proof.
  intros s settles_with. subst settles_with. cbv beta.
  pose (T := fun response =>
    generateText_checks_in_order sample_key sample_options response s eq_refl).
  split; [|split; [|split; [|split]]].
  - destruct (T (blocked_response (js "OTHER"))) as [H _].
    apply (H (js "OTHER")); [reflexivity | discriminate].
  - destruct (T {| promptFeedback := None; candidates := Some [];
                   text := js "t" |}) as [_ [H _]].
    apply H; [reflexivity | right; reflexivity].
  - destruct (T (finished_response FinishReason_SAFETY (js "t")))
      as [_ [_ [H _]]].
    assert (A : FinishReason_SAFETY <> []) by (vm_compute; discriminate).
    assert (B : FinishReason_SAFETY <> FinishReason_STOP)
      by (vm_compute; discriminate).
    destruct (H {| finishReason := Some FinishReason_SAFETY |} []
                FinishReason_SAFETY eq_refl eq_refl eq_refl A B) as [Hs _].
    apply Hs. reflexivity.
  - destruct (T (finished_response (js "MAX_TOKENS") (js "t")))
      as [_ [_ [H _]]].
    assert (A : js "MAX_TOKENS" <> []) by (vm_compute; discriminate).
    assert (B : js "MAX_TOKENS" <> FinishReason_STOP)
      by (vm_compute; discriminate).
    destruct (H {| finishReason := Some (js "MAX_TOKENS") |} []
                (js "MAX_TOKENS") eq_refl eq_refl eq_refl A B) as [_ Hs].
    apply Hs. vm_compute; discriminate.
  - destruct (T (stop_response (js "t"))) as [_ [_ [_ [H _]]]].
    apply (H {| finishReason := Some FinishReason_STOP |} []);
      [reflexivity | reflexivity | right; reflexivity].
Defined.

(** The run on the video [V1]: stage one answers [sample_spec_text],
    stage two answers [sample_code_text]. *)
Lemma fresh_run_reaches_ready_witness :
  let gen :=
    generateContent sample_key sample_prompt sample_addendum sample_opener
      sample_closer sample_syntax_message sample_type_message
      sample_to_primitive in
  let props := sample_props (js "https://www.youtube.com/watch?v=V1") in
  let outcomes := [Fulfilled (stop_response sample_spec_text);
                   Fulfilled (stop_response sample_code_text)] in
  (exists calls s',
      run (gen props) (initial_state props) outcomes
      = (calls, (s', Finished (inl tt)))
      /\ length calls = 2%nat
      /\ loadingState s' = ready
      /\ error s' = None
      /\ spec s' = js "S1" ++ sample_addendum
      /\ code s'
         = slice sample_code_text (indexOf sample_code_text DOCTYPE)
                 (lastIndexOf sample_code_text sample_closer)
      /\ exists before after rest,
           sample_code_text = before ++ code s' ++ sample_closer ++ after
           /\ code s' = DOCTYPE ++ rest
           /\ indexOf sample_code_text DOCTYPE = Z.of_nat (length before)
           /\ lastIndexOf sample_code_text sample_closer
              = Z.of_nat (length (before ++ code s')))
  /\ code (fst (snd (run (gen props) (initial_state props) outcomes)))
     = js "<!DOCTYPE html>CODE1</html>".
Proof.
  intros gen props outcomes. split; [|vm_compute; reflexivity].
  apply (fresh_run_reaches_ready sample_key sample_prompt sample_addendum
           sample_opener sample_closer sample_syntax_message
           sample_type_message sample_to_primitive props
           (Fulfilled (stop_response sample_spec_text))
           (Fulfilled (stop_response sample_code_text))
           sample_spec_text sample_code_text (js "S1")
           sample_opener (js "CODE1</html>") []);
    vm_compute; reflexivity.
Defined.

(** Saving [  Build a quiz.  ] over the stored spec [Build a quiz.]. *)
Lemma handleSpecSave_same_spec_is_noop_witness :
  let cur := sample_state (js "Build a quiz.") (js "  Build a quiz.  ") in
  exists s',
    run (handleSpecSave sample_key sample_opener sample_closer
           sample_syntax_message sample_type_message cur)
        cur [Fulfilled (stop_response sample_code_text)]
    = ([], (s', Finished (inl tt)))
    /\ loadingState s' = loadingState cur
    /\ spec s' = spec cur
    /\ code s' = code cur
    /\ error s' = error cur
    /\ isEditingSpec s' = false
    /\ editedSpec s' = [].
Proof.
  intros cur.
  apply (handleSpecSave_same_spec_is_noop sample_key sample_opener
           sample_closer sample_syntax_message sample_type_message cur).
  vm_compute; reflexivity.
Defined.

(** Saving [ Build a game. ] over [Build a quiz.], with a stage-two
    answer blocked for safety. *)
Lemma handleSpecSave_keeps_edited_spec_witness :
  let cur := sample_state (js "Build a quiz.") (js " Build a game. ") in
  let outcomes :=
    [Fulfilled (finished_response FinishReason_SAFETY [])] in
  let save :=
    handleSpecSave sample_key sample_opener sample_closer
      sample_syntax_message sample_type_message cur in
  (forall at_call req,
      In (at_call, req) (fst (run save cur outcomes)) ->
      spec at_call = js "Build a game."
      /\ loadingState at_call = loading_code
      /\ model req = js "gemini-2.5-pro-preview-03-25"
      /\ contents req
         = [ {| role := js "user";
                parts := [TextPart (js "Build a game.")] |} ])
  /\ exists s',
       snd (run save cur outcomes) = (s', Finished (inl tt))
       /\ loadingState s' = error_state
       /\ error s'
          = Some (js
   "Content generation failed: Response blocked due to safety settings.")
       /\ spec s' = js "Build a game.".
Proof.
  intros cur outcomes save.
  assert (N : trim (editedSpec cur) <> spec cur)
    by (vm_compute; discriminate).
  destruct (handleSpecSave_keeps_edited_spec sample_key sample_opener
              sample_closer sample_syntax_message sample_type_message
              cur outcomes N) as [Hcall Hfail].
  split; [exact Hcall|].
  apply (Hfail (JsError (js
   "Content generation failed: Response blocked due to safety settings."))
               cur).
  vm_compute; reflexivity.
Defined.

(** Saving [Build a quiz.] over the stored spec [Build a quiz. ], which
    ends with a space. *)
Lemma handleSpecSave_untrimmed_stored_spec_witness :
  let cur := sample_state (js "Build a quiz. ") (js "Build a quiz.") in
  jsstring_eqb (trim (editedSpec cur)) (spec cur) = false
  /\ exists s' req k,
       run_sync (handleSpecSave sample_key sample_opener sample_closer
                   sample_syntax_message sample_type_message cur) cur
       = (s', Waiting req k)
       /\ spec s' = trim (editedSpec cur)
       /\ loadingState s' = loading_code
       /\ model req = js "gemini-2.5-pro-preview-03-25"
       /\ contents req
          = [ {| role := js "user";
                 parts := [TextPart (trim (editedSpec cur))] |} ].
Proof.
  intros cur.
  apply (handleSpecSave_untrimmed_stored_spec sample_key sample_opener
           sample_closer sample_syntax_message sample_type_message cur).
  - exists 32%N, (js "Build a quiz."). split; [reflexivity|].
    right. reflexivity.
  - vm_compute; reflexivity.
  - reflexivity.
Defined.

(** A component given a pre-seeded spec but no code, and one given a
    pre-seeded code but no spec; stage one answers [sample_spec_text],
    stage two answers [sample_code_text]. *)
Lemma partial_preseed_is_ignored_witness :
  let gen :=
    generateContent sample_key sample_prompt sample_addendum sample_opener
      sample_closer sample_syntax_message sample_type_message
      sample_to_primitive in
  let url := js "https://www.youtube.com/watch?v=V1" in
  let fresh := sample_props url in
  let outcomes := [Fulfilled (stop_response sample_spec_text);
                   Fulfilled (stop_response sample_code_text)] in
  let two_stages props :=
    loadingState (initial_state props) = loading_spec
    /\ run (gen props) (initial_state props) outcomes
       = run (gen fresh) (initial_state fresh) outcomes
    /\ exists s1 req1 s2 req2 s',
         run (gen props) (initial_state props) outcomes
         = ([(s1, req1); (s2, req2)], (s', Finished (inl tt)))
         /\ spec s1 = [] /\ code s1 = []
         /\ loadingState s1 = loading_spec
         /\ model req1 = js "gemini-2.0-flash"
         /\ contents req1
            = [ {| role := js "user";
                   parts := [TextPart sample_prompt;
                             FileDataPart (js "video/mp4") url] |} ]
         /\ spec s2 = js "S1" ++ sample_addendum /\ code s2 = []
         /\ loadingState s2 = loading_code
         /\ model req2 = js "gemini-2.5-pro-preview-03-25"
         /\ contents req2
            = [ {| role := js "user";
                   parts := [TextPart (js "S1" ++ sample_addendum)] |} ]
         /\ loadingState s' = ready
         /\ error s' = None
         /\ spec s' = js "S1" ++ sample_addendum
         /\ code s' = js "<!DOCTYPE html>CODE1</html>" in
  two_stages {| contentBasis := url;
                preSeededSpec := Some (js "A seeded spec.");
                preSeededCode := None |}
  /\ two_stages {| contentBasis := url;
                   preSeededSpec := Some [];
                   preSeededCode := Some (js "<!DOCTYPE html>seeded") |}
  /\ spec (initial_state {| contentBasis := url;
                            preSeededSpec := Some (js "A seeded spec.");
                            preSeededCode := None |})
     = js "A seeded spec.".
Proof.
  intros gen url fresh outcomes two_stages.
  assert (T : forall props,
    truthy_opt (preSeededSpec props) && truthy_opt (preSeededCode props)
    = false ->
    contentBasis props = url ->
    two_stages props).
  { intros props Hseed Hurl.
    destruct (partial_preseed_is_ignored sample_key sample_prompt
                sample_addendum sample_opener sample_closer
                sample_syntax_message sample_type_message
                sample_to_primitive props outcomes Hseed)
      as [H1 [H2 [_ H4]]].
    split; [exact H1|]. split; [rewrite Hurl in H2; exact H2|].
    rewrite Hurl in H4.
    apply (H4 (Fulfilled (stop_response sample_spec_text))
              (Fulfilled (stop_response sample_code_text)) []
              sample_spec_text (js "S1" ++ sample_addendum)
              sample_code_text);
      vm_compute; reflexivity. }
  split; [|split].
  - apply T; reflexivity.
  - apply T; reflexivity.
  - vm_compute. reflexivity.
Defined.

(** The video [V1] is submitted and its stage one answers.  While stage
    two of [V1] is pending the basis is reassigned, in three ways: the
    example on [V2] (which carries no spec and no code) is selected; the
    URL of [V2], found among the examples, is submitted; the URL of [V2]
    passes validation.  Stage two of [V1] answers last. *)
Lemma stale_run_is_never_committed_witness :
  let session :=
    exec sample_key sample_prompt sample_addendum sample_opener
      sample_closer sample_syntax_message sample_type_message
      sample_to_primitive in
  let next :=
    step sample_key sample_prompt sample_addendum sample_opener
      sample_closer sample_syntax_message sample_type_message
      sample_to_primitive in
  let sys1 :=
    session initial_system
      [Submit (js "https://www.youtube.com/watch?v=V1") true;
       Settle 0 (Fulfilled (stop_response sample_spec_text))] in
  let late := Settle 0 (Fulfilled (stop_response sample_code_text)) in
  let settles_unseen e :=
    (mounted (next (next sys1 e) late) = mounted (next sys1 e)
     /\ appState (next (next sys1 e) late) = appState (next sys1 e))
    /\ App.reloadCounter (appState (next sys1 e)) = 2
    /\ option_map (fun i => (key i, code (state i), loadingState (state i)))
         (mounted (next (next sys1 e) late))
       = Some (2, [], loading_spec) in
  settles_unseen (ExampleSelect sample_example)
  /\ settles_unseen (Submit (js "https://www.youtube.com/watch?v=V2") true)
  /\ settles_unseen (Validated (js "https://www.youtube.com/watch?v=V2") true)
  /\ option_map (fun i => (key i, code (state i), loadingState (state i)))
       (mounted (next sys1 late))
     = Some (1, js "<!DOCTYPE html>CODE1</html>", ready).
Proof.
  intros session next sys1 late settles_unseen.
  assert (T : forall e,
    reassigns_basis sys1 e ->
    (0 < length (pending (next sys1 e)))%nat ->
    owner (nth 0 (pending (next sys1 e)) sample_task)
    = owner (nth 0 (pending sys1) sample_task) ->
    (mounted (next (next sys1 e) late) = mounted (next sys1 e)
     /\ appState (next (next sys1 e) late) = appState (next sys1 e))
    /\ App.reloadCounter (appState (next sys1 e))
       = App.reloadCounter (appState sys1) + 1).
  { intros e Hre Hlen Hown.
    destruct (stale_run_is_never_committed sample_key sample_prompt
                sample_addendum sample_opener sample_closer
                sample_syntax_message sample_type_message
                sample_to_primitive
                [Submit (js "https://www.youtube.com/watch?v=V1") true;
                 Settle 0 (Fulfilled (stop_response sample_spec_text))]
                e []
                (nth 0 (pending sys1) sample_task)
                (nth 0 (pending (next sys1 e)) sample_task)
                0%nat (Fulfilled (stop_response sample_code_text)))
      as [H1 [_ [H3 _]]].
    - apply nth_In. vm_compute. lia.
    - exact Hre.
    - apply nth_error_nth'. exact Hlen.
    - exact Hown.
    - split; [exact H1 | exact H3]. }
  subst settles_unseen. cbv beta.
  split; [|split; [|split]].
  - destruct (T (ExampleSelect sample_example)) as [H1 H2];
      [exact I | vm_compute; lia | vm_compute; reflexivity |].
    split; [exact H1|]. split; [rewrite H2|]; vm_compute; reflexivity.
  - destruct (T (Submit (js "https://www.youtube.com/watch?v=V2") true))
      as [H1 H2];
      [repeat split; try left; vm_compute; reflexivity
      | vm_compute; lia | vm_compute; reflexivity |].
    split; [exact H1|]. split; [rewrite H2|]; vm_compute; reflexivity.
  - destruct (T (Validated (js "https://www.youtube.com/watch?v=V2") true))
      as [H1 H2];
      [reflexivity | vm_compute; lia | vm_compute; reflexivity |].
    split; [exact H1|]. split; [rewrite H2|]; vm_compute; reflexivity.
  - vm_compute. reflexivity.
Defined.

(** [parseJSON] on [sample_spec_text]: words, the payload, words. *)
Lemma parseJSON_ignores_commentary_witness :
  parseJSON sample_spec_text
  = inl (JObject [(js "spec", JString (js "S1"))]).
Proof.
  change sample_spec_text
    with (js "Sure: "
          ++ (123%N :: (quoted (js "spec") ++ js ": " ++ quoted (js "S1"))
                ++ [125%N])
          ++ js " Done.").
  rewrite parseJSON_ignores_commentary.
  - vm_compute. reflexivity.
  - vm_compute. intuition discriminate.
  - vm_compute. intuition discriminate.
Defined.

(** A text without the marker, with two closers. *)
Lemma parseHTML_without_marker_witness :
  parseHTML (js "<p>one</p>END<p>two</p>END tail") (js "X") (js "END")
  = js "<p>one</p>END<p>two</p>".
Proof.
  apply parseHTML_without_marker.
  - apply indexOf_absent. vm_compute. reflexivity.
  - exists (js " tail"). reflexivity.
  - apply (lastIndexOf_last (js "<p>one</p>END<p>two</p>END tail")
             (js "END") 23).
    vm_compute. reflexivity.
Defined.

(** The fenced document of [sample_code_text]. *)
Lemma parseHTML_extracts_document_witness :
  parseHTML sample_code_text sample_opener sample_closer
  = js "<!DOCTYPE html>CODE1</html>".
Proof.
  apply (parseHTML_extracts_document sample_code_text sample_opener
           sample_closer sample_opener (js "CODE1</html>") []).
  - vm_compute. reflexivity.
  - apply (indexOf_first sample_code_text DOCTYPE 7).
    vm_compute. reflexivity.
  - apply (lastIndexOf_last sample_code_text sample_closer 34).
    vm_compute. reflexivity.
Defined.

(** A run with no credential in the environment. *)
Lemma run_without_credential_witness :
  let props := sample_props (js "https://www.youtube.com/watch?v=V1") in
  exists s',
    run (generateContent None sample_prompt sample_addendum sample_opener
           sample_closer sample_syntax_message sample_type_message
           sample_to_primitive props)
        (initial_state props) [Fulfilled (stop_response sample_spec_text)]
    = ([], (s', Finished (inl tt)))
    /\ loadingState s' = error_state
    /\ error s' = Some (js "Gemini API key is missing or empty")
    /\ spec s' = [] /\ code s' = [].
Proof.
  intros props.
  apply (run_without_credential None sample_prompt sample_addendum
           sample_opener sample_closer sample_syntax_message
           sample_type_message sample_to_primitive props);
    reflexivity.
Defined.

(** Stage one rejected with a value that is no [Error]. *)
Lemma stage_one_failure_witness :
  let props := sample_props (js "https://www.youtube.com/watch?v=V1") in
  exists s1 req1 s',
    run (generateContent sample_key sample_prompt sample_addendum
           sample_opener sample_closer sample_syntax_message
           sample_type_message sample_to_primitive props)
        (initial_state props)
        [Rejected NonError; Fulfilled (stop_response sample_code_text)]
    = ([(s1, req1)], (s', Finished (inl tt)))
    /\ model req1 = js "gemini-2.0-flash"
    /\ loadingState s' = error_state
    /\ error s' = Some (js "An unknown error occurred")
    /\ spec s' = [] /\ code s' = [].
Proof.
  intros props.
  apply (stage_one_failure sample_key sample_prompt sample_addendum
           sample_opener sample_closer sample_syntax_message
           sample_type_message sample_to_primitive props
           (initial_state props) (Rejected NonError)
           [Fulfilled (stop_response sample_code_text)] NonError);
    [reflexivity | reflexivity | left; reflexivity].
Defined.

(** Stage one answers [sample_spec_text]; stage two is blocked for
    safety. *)
Lemma stage_two_failure_witness :
  let props := sample_props (js "https://www.youtube.com/watch?v=V1") in
  exists s1 req1 s2 req2 s',
    run (generateContent sample_key sample_prompt sample_addendum
           sample_opener sample_closer sample_syntax_message
           sample_type_message sample_to_primitive props)
        (initial_state props)
        [Fulfilled (stop_response sample_spec_text);
         Fulfilled (finished_response FinishReason_SAFETY [])]
    = ([(s1, req1); (s2, req2)], (s', Finished (inl tt)))
    /\ spec s2 = js "S1" ++ sample_addendum
    /\ loadingState s2 = loading_code
    /\ model req2 = js "gemini-2.5-pro-preview-03-25"
    /\ contents req2
       = [ {| role := js "user";
              parts := [TextPart (js "S1" ++ sample_addendum)] |} ]
    /\ loadingState s' = error_state
    /\ error s'
       = Some (js
   "Content generation failed: Response blocked due to safety settings.")
    /\ spec s' = js "S1" ++ sample_addendum /\ code s' = [].
Proof.
  intros props.
  apply (stage_two_failure sample_key sample_prompt sample_addendum
           sample_opener sample_closer sample_syntax_message
           sample_type_message sample_to_primitive props
           (initial_state props)
           (Fulfilled (stop_response sample_spec_text))
           (Fulfilled (finished_response FinishReason_SAFETY []))
           [] sample_spec_text (js "S1" ++ sample_addendum)
           (JsError (js
   "Content generation failed: Response blocked due to safety settings.")));
    vm_compute; reflexivity.
Defined.

(** Stage one answers an empty object. *)
Lemma spec_member_missing_witness :
  let props := sample_props (js "https://www.youtube.com/watch?v=V1") in
  exists s1 req1 s2 req2 k,
    run (generateContent sample_key sample_prompt sample_addendum
           sample_opener sample_closer sample_syntax_message
           sample_type_message sample_to_primitive props)
        (initial_state props) [Fulfilled (stop_response (js "{}"))]
    = ([(s1, req1); (s2, req2)], (s2, Waiting req2 k))
    /\ spec s2 = js "undefined" ++ sample_addendum
    /\ loadingState s2 = loading_code
    /\ error s2 = None
    /\ contents req2
       = [ {| role := js "user";
              parts := [TextPart (js "undefined" ++ sample_addendum)] |} ].
Proof.
  intros props.
  apply (spec_member_missing sample_key sample_prompt sample_addendum
           sample_opener sample_closer sample_syntax_message
           sample_type_message sample_to_primitive props
           (initial_state props) (Fulfilled (stop_response (js "{}")))
           (js "{}") []);
    vm_compute; reflexivity.
Defined.

(** Saving [ Build a game. ] over [Build a quiz.]; the call answers
    [sample_code_text]. *)
Lemma handleSpecSave_regenerates_witness :
  let cur := sample_state (js "Build a quiz.") (js " Build a game. ") in
  exists s1 req s',
    run (handleSpecSave sample_key sample_opener sample_closer
           sample_syntax_message sample_type_message cur)
        cur [Fulfilled (stop_response sample_code_text)]
    = ([(s1, req)], (s', Finished (inl tt)))
    /\ error s1 = None
    /\ loadingState s' = ready
    /\ error s' = None
    /\ spec s' = js "Build a game."
    /\ code s' = js "<!DOCTYPE html>CODE1</html>"
    /\ isEditingSpec s' = false
    /\ activeTabIndex s' = 1.
Proof.
  intros cur.
  apply (handleSpecSave_regenerates sample_key sample_opener sample_closer
           sample_syntax_message sample_type_message cur
           (Fulfilled (stop_response sample_code_text)) [] sample_code_text).
  - vm_compute. discriminate.
  - reflexivity.
  - reflexivity.
Defined.

(** The same save, then the editor opened and saved again. *)
Lemma resave_after_save_is_noop_witness :
  let save :=
    handleSpecSave sample_key sample_opener sample_closer
      sample_syntax_message sample_type_message in
  let cur := sample_state (js "Build a quiz.") (js " Build a game. ") in
  let outcomes := [Fulfilled (stop_response sample_code_text)] in
  let s' := fst (snd (run (save cur) cur outcomes)) in
  let reopened := fst (run_sync (handleSpecEdit s') s') in
  editedSpec reopened = spec s'
  /\ isEditingSpec reopened = true
  /\ exists s'',
       run (save reopened) reopened outcomes = ([], (s'', Finished (inl tt)))
       /\ spec s'' = spec s'
       /\ code s'' = code s'
       /\ loadingState s'' = loadingState s'
       /\ isEditingSpec s'' = false.
Proof.
  intros save cur outcomes s' reopened.
  apply (resave_after_save_is_noop sample_key sample_opener sample_closer
           sample_syntax_message sample_type_message cur s' outcomes
           outcomes).
  - vm_compute. discriminate.
  - vm_compute. reflexivity.
Defined.

(** A blank submit while the run on [V1] is loading. *)
Lemma no_run_without_accepted_url_witness :
  let next :=
    step sample_key sample_prompt sample_addendum sample_opener
      sample_closer sample_syntax_message sample_type_message
      sample_to_primitive in
  let sys :=
    exec sample_key sample_prompt sample_addendum sample_opener
      sample_closer sample_syntax_message sample_type_message
      sample_to_primitive initial_system
      [Submit (js "https://www.youtube.com/watch?v=V1") true] in
  next sys (Submit (js "   ") false) = sys.
Proof.
  intros next sys.
  apply (proj1 (no_run_without_accepted_url sample_key sample_prompt
                  sample_addendum sample_opener sample_closer
                  sample_syntax_message sample_type_message
                  sample_to_primitive
                  [Submit (js "https://www.youtube.com/watch?v=V1") true]
                  (js "   ") [] false)).
  left. vm_compute. reflexivity.
Defined.

(** An example with a spec and a code, selected first thing. *)
Lemma selecting_a_seeded_example_is_ready_witness :
  let example :=
    {| Example.title := js "Seeded";
       Example.url := js "https://www.youtube.com/watch?v=V3";
       Example.spec := js "A seeded spec.";
       Example.code := js "<!DOCTYPE html><p>seeded</p>" |} in
  let sys' :=
    step sample_key sample_prompt sample_addendum sample_opener
      sample_closer sample_syntax_message sample_type_message
      sample_to_primitive initial_system (ExampleSelect example) in
  exists i,
    mounted sys' = Some i
    /\ iid i = O
    /\ key i = 1
    /\ contentBasis (props i) = Example.url example
    /\ spec (state i) = Example.spec example
    /\ code (state i) = Example.code example
    /\ loadingState (state i) = ready
    /\ error (state i) = None
    /\ pending sys' = []
    /\ App.contentLoading (appState sys') = false.
Proof.
  intros example sys'.
  apply (selecting_a_seeded_example_is_ready sample_key sample_prompt
           sample_addendum sample_opener sample_closer
           sample_syntax_message sample_type_message sample_to_primitive
           [] example);
    reflexivity.
Defined.

(** The URL of [sample_example], typed and submitted first thing. *)
Lemma submitting_an_example_url_generates_witness :
  let sys' :=
    step sample_key sample_prompt sample_addendum sample_opener
      sample_closer sample_syntax_message sample_type_message
      sample_to_primitive initial_system
      (Submit (js " https://www.youtube.com/watch?v=V2 ") true) in
  exists i t,
    mounted sys' = Some i
    /\ key i = 1
    /\ props i = sample_props (js "https://www.youtube.com/watch?v=V2")
    /\ loadingState (state i) = loading_spec
    /\ spec (state i) = [] /\ code (state i) = []
    /\ pending sys' = [t]
    /\ owner t = iid i
    /\ model (request t) = js "gemini-2.0-flash"
    /\ contents (request t)
       = [ {| role := js "user";
              parts := [TextPart sample_prompt;
                        FileDataPart (js "video/mp4")
                          (js "https://www.youtube.com/watch?v=V2")] |} ]
    /\ App.selectedExample (appState sys') = None
    /\ App.urlValidating (appState sys') = false
    /\ App.contentLoading (appState sys') = true.
Proof.
  intros sys'.
  apply (submitting_an_example_url_generates sample_key sample_prompt
           sample_addendum sample_opener sample_closer
           sample_syntax_message sample_type_message sample_to_primitive
           [] (js " https://www.youtube.com/watch?v=V2 "));
    reflexivity.
Defined.

(** A submit before any example is loaded, and the same submit with
    [sample_example] loaded. *)
Lemma handleSubmit_needs_examples_witness :
  let raw := js "https://www.youtube.com/watch?v=V1" in
  (exists a',
      App.handleSubmit_in (DataProvider.defaultExample []) [] raw App.initial
      = (a', inr JsTypeError)
      /\ App.urlValidating a' = true
      /\ App.videoUrl a' = []
      /\ App.reloadCounter a' = 0
      /\ forall examples raw',
           App.handleSubmit_in (DataProvider.defaultExample examples)
                               examples raw' a'
           = (a', inl tt))
  /\ snd (App.handleSubmit_in (DataProvider.defaultExample [sample_example])
            [sample_example] raw App.initial)
     = inl tt.
Proof.
  intros raw.
  destruct (handleSubmit_needs_examples raw App.initial eq_refl eq_refl)
    as [H1 H2].
  split; [exact H1|].
  destruct (H2 sample_example []) as [found [_ E]].
  rewrite E. reflexivity.
Defined.

(** Enter pressed while the run on [V1] is in [loading-spec]. *)
Lemma enter_is_ignored_while_busy_witness :
  let sys :=
    exec sample_key sample_prompt sample_addendum sample_opener
      sample_closer sample_syntax_message sample_type_message
      sample_to_primitive initial_system
      [Submit (js "https://www.youtube.com/watch?v=V1") true] in
  App.handleKeyDown (js "Enter") (js "https://www.youtube.com/watch?v=V2")
                    true (appState sys)
  = appState sys.
Proof.
  intros sys.
  apply (enter_is_ignored_while_busy sample_key sample_prompt
           sample_addendum sample_opener sample_closer
           sample_syntax_message sample_type_message sample_to_primitive
           [Submit (js "https://www.youtube.com/watch?v=V1") true]
           (js "Enter") (js "https://www.youtube.com/watch?v=V2") true).
  left. eexists. split; [vm_compute; reflexivity|].
  left. reflexivity.
Defined.
